(** * Sentinel-2 catalogue query and bucket download: model and properties

    A shallow embedding of [funciones_sentinel_2.py]:
    - [remove_prefix], [extract_imagename] (with the part of the [re] engine
      its pattern needs), [download], [get_copernicus_image_metadata] and
      [download_copernicus_images];
    - the collaborators they call ([os.path], [os.makedirs], the S3 bucket,
      the catalogue's JSON answer, the pandas table) as explicit data.

    Python [str] values are [string]s whose characters are code points
    below 256.  On that range the class [\d] of [re] is exactly [0-9];
    beyond it [\d] also accepts the other decimal digits of Unicode, which
    these strings cannot hold.  A path is its string: two strings name the
    same file only when they are equal. *)

From Stdlib Require Import ZArith DecimalString Ascii.
From stdpp Require Import base strings gmap list.

#[local] Open Scope Z_scope.

(** ** Strings the way Python slices and tests them *)

Module Str.

(** [s.startswith(prefix)] *)
Fixpoint startswith (s prefix : string) {struct prefix} : bool :=
  match prefix with
  | "" => true
  | String p prefix' =>
      match s with
      | "" => false
      | String c s' => Ascii.eqb c p && startswith s' prefix'
      end
  end.

(** [s[n:]] for [0 <= n] *)
Fixpoint drop (n : nat) (s : string) : string :=
  match n, s with
  | O, _ => s
  | S _, "" => ""
  | S n', String _ s' => drop n' s'
  end.

(** [s[:n]] for [0 <= n] *)
Fixpoint take (n : nat) (s : string) : string :=
  match n, s with
  | O, _ => ""
  | S _, "" => ""
  | S n', String c s' => String c (take n' s')
  end.

(** [s.rfind(c)]: index of the last [c], or [-1] *)
Fixpoint rfind (c : ascii) (s : string) : Z :=
  match s with
  | "" => -1
  | String x s' =>
      let r := rfind c s' in
      if r =? -1 then (if Ascii.eqb x c then 0 else -1) else r + 1
  end.

(** [s.endswith(suffix)]: the last [len(suffix)] characters are [suffix] *)
Definition endswith (s suffix : string) : bool :=
  (String.length suffix <=? String.length s)%nat
  && startswith (drop (String.length s - String.length suffix) s) suffix.

Fixpoint all (p : ascii → bool) (s : string) : bool :=
  match s with
  | "" => true
  | String c s' => p c && all p s'
  end.

(** [str(n)] for an [int] *)
Definition of_int (n : Z) : string := NilZero.string_of_int (Z.to_int n).

End Str.

(** ** Exceptions

    Every exception the modelled operations raise is a subclass of
    [Exception]; [str e] is what an f-string prints for it. *)

Inductive exn : Type :=
| ValueError (msg : string)
| FileNotFoundError (msg : string)
| KeyError (key : string)
| AttributeError (msg : string)
| ClientError (msg : string)
| NotADirectoryError (msg : string)
| OSError (msg : string).

Definition str (e : exn) : string :=
  match e with
  | ValueError msg | FileNotFoundError msg | AttributeError msg
  | ClientError msg | NotADirectoryError msg | OSError msg => msg
  | KeyError key => "'" +:+ key +:+ "'"
  end.

(** ** [remove_prefix] *)

Definition remove_prefix (string_ : string) (prefix : string) : string :=
  if Str.startswith string_ prefix
  then Str.drop (String.length prefix) string_
  else string_.

(** ** The [re] engine, as far as the image-name pattern uses it

    The parse tree of [sre_parse]: literals, the class [IN], [ANY] (without
    DOTALL: anything but a line feed) and the greedy [MAX_REPEAT] over a
    one-character node.  The only group spans the whole pattern, so
    [group(1)] is the whole match. *)

Module re.

(** [CATEGORY_DIGIT] is [\d], which among the code points below 256
    accepts [0] to [9] and nothing else. *)
Inductive set_item : Type :=
| SET_LITERAL (c : ascii)
| SET_RANGE (lo hi : ascii)
| CATEGORY_DIGIT.

Inductive atom : Type :=
| LITERAL (c : ascii)
| IN (items : list set_item)
| ANY.

Inductive node : Type :=
| AT (a : atom)
| MAX_REPEAT (lo : nat) (hi : option nat) (a : atom).

Definition between (lo hi c : ascii) : bool :=
  (Ascii.leb lo c && Ascii.leb c hi)%bool.

Definition item_matches (i : set_item) (c : ascii) : bool :=
  match i with
  | SET_LITERAL x => Ascii.eqb c x
  | SET_RANGE lo hi => between lo hi c
  | CATEGORY_DIGIT => between "0" "9" c
  end.

Definition atom_matches (a : atom) (c : ascii) : bool :=
  match a with
  | LITERAL x => Ascii.eqb c x
  | IN items => existsb (λ i, item_matches i c) items
  | ANY => negb (Ascii.eqb c "010")
  end.

(** How many leading characters of [s] the atom accepts. *)
Fixpoint run_length (a : atom) (s : string) : nat :=
  match s with
  | "" => O
  | String c s' => if atom_matches a c then S (run_length a s') else O
  end.

(** A greedy repeat first takes as many as it can, up to its maximum. *)
Definition greedy_count (a : atom) (hi : option nat) (s : string) : nat :=
  match hi with
  | None => run_length a s
  | Some h => Nat.min h (run_length a s)
  end.

(** ... and gives characters back one at a time, down to its minimum,
    until the rest of the pattern matches. *)
Fixpoint backtrack {A} (try : nat → option A) (lo k : nat) : option A :=
  if (k <? lo)%nat then None
  else match try k with
       | Some r => Some r
       | None => match k with
                 | O => None
                 | S k' => backtrack try lo k'
                 end
       end.

(** Length of the match of [ops] at the start of [s], if there is one. *)
Fixpoint sre_match (ops : list node) (s : string) : option nat :=
  match ops with
  | [] => Some O
  | AT a :: rest =>
      match s with
      | "" => None
      | String c s' =>
          if atom_matches a c then S <$> sre_match rest s' else None
      end
  | MAX_REPEAT lo hi a :: rest =>
      backtrack (λ k, Nat.add k <$> sre_match rest (Str.drop k s))
                lo (greedy_count a hi s)
  end.

(** [re.search(pattern, s)]: the match at the leftmost position that has
    one; the result is [match.group(1)]. *)
Fixpoint search (ops : list node) (s : string) : option string :=
  match sre_match ops s with
  | Some n => Some (Str.take n s)
  | None =>
      match s with
      | "" => None
      | String _ s' => search ops s'
      end
  end.

Fixpoint literals (s : string) : list node :=
  match s with
  | "" => []
  | String c s' => AT (LITERAL c) :: literals s'
  end.

Definition digits1 : node := MAX_REPEAT 1 None (IN [CATEGORY_DIGIT]).

(** A pattern as [extract_imagename] can use it: one capturing group that
    spans the whole regex, [(ops)], so that [group(1)] exists and is the
    whole match.  A regex without a group, or with its first group inside,
    is not of this form. *)
Inductive regex : Type := GROUP1 (ops : list node).

(** What the group holds. *)
Definition inside (p : regex) : list node :=
  match p with GROUP1 ops => ops end.

(** What [re.compile] accepts of such a tree: a class has an item, a range
    runs upwards, and the minimum of a repeat is not above its maximum. *)
Definition item_ok (i : set_item) : bool :=
  match i with
  | SET_RANGE lo hi => Ascii.leb lo hi
  | SET_LITERAL _ | CATEGORY_DIGIT => true
  end.

Definition atom_ok (a : atom) : bool :=
  match a with
  | IN [] => false
  | IN items => forallb item_ok items
  | LITERAL _ | ANY => true
  end.

Definition node_ok (n : node) : bool :=
  match n with
  | AT a => atom_ok a
  | MAX_REPEAT lo hi a =>
      atom_ok a
      && match hi with
         | Some h => (lo <=? h)%nat
         | None => true
         end
  end.

Definition compiles (p : regex) : bool := forallb node_ok (inside p).

End re.

(** [S2[AB]_MSI.{3}_\d+T\d+_N\d+_R\d+_T[a-zA-Z0-9]+], the inside of the
    group of the default pattern *)
Definition imagename_ops : list re.node :=
  re.literals "S2"
  ++ [re.AT (re.IN [re.SET_LITERAL "A"; re.SET_LITERAL "B"])]
  ++ re.literals "_MSI"
  ++ [re.MAX_REPEAT 3 (Some 3%nat) re.ANY]
  ++ re.literals "_" ++ [re.digits1]
  ++ re.literals "T" ++ [re.digits1]
  ++ re.literals "_N" ++ [re.digits1]
  ++ re.literals "_R" ++ [re.digits1]
  ++ re.literals "_T"
  ++ [re.MAX_REPEAT 1 None
        (re.IN [re.SET_RANGE "a" "z"; re.SET_RANGE "A" "Z";
                re.SET_RANGE "0" "9"])].

(** [r"(S2[AB]_MSI.{3}_\d+T\d+_N\d+_R\d+_T[a-zA-Z0-9]+)"] *)
Definition imagename_pattern : re.regex := re.GROUP1 imagename_ops.

(** ** [extract_imagename] *)

Definition extract_imagename (path : string) (pattern : re.regex)
  : exn + string :=
  match re.search (re.inside pattern) path with
  | Some imagename => inr imagename
  | None =>
      inl (ValueError "No match found for the pattern in the provided path.")
  end.

(** ** The local filesystem and standard output

    Directories are a set of paths, regular files a map from path to
    content, and [stdout] the lines printed so far.  What can raise is the
    program's own checks, the transfer of an object, and the renaming of a
    fetched object to a local path that does not name a file; failures
    that depend on what the disk holds or allows (permissions, a file
    where a directory is wanted) are outside the model. *)

Definition bytes : Type := list Byte.byte.

Record World : Type := mkWorld {
  dirs : gset string;
  files : gmap string bytes;
  stdout : list string
}.

(** ** Computations that change the world and may raise *)

Definition M (A : Type) : Type := World → World * (exn + A).

Definition ret {A} (a : A) : M A := λ w, (w, inr a).

Definition raise {A} (e : exn) : M A := λ w, (w, inl e).

Definition lift {A} (r : exn + A) : M A := λ w, (w, r).

Definition bind {A B} (m : M A) (k : A → M B) : M B :=
  λ w, match m w with
       | (w', inr a) => k a w'
       | (w', inl e) => (w', inl e)
       end.

(** [try: body except Exception as e: handler e] *)
Definition try_except {A} (body : M A) (handler : exn → M A) : M A :=
  λ w, match body w with
       | (w', inl e) => handler e w'
       | (w', inr a) => (w', inr a)
       end.

Notation "'let!' x ':=' m 'in' k" := (bind m (λ x, k))
  (at level 10, x pattern, m at level 100, k at level 200).
Notation "m '>>' k" := (bind m (λ _, k))
  (at level 90, right associativity).

(** [for x in xs: body x] *)
Fixpoint for_each {X} (xs : list X) (body : X → M unit) : M unit :=
  match xs with
  | [] => ret tt
  | x :: xs' => body x >> for_each xs' body
  end.

Definition print (line : string) : M unit :=
  λ w, (mkWorld (dirs w) (files w) (stdout w ++ [line]), inr tt).

(** ** [os.path] (POSIX) and [os.makedirs] *)

Module os_path.

(** [os.path.join(a, b)] *)
Definition join (a b : string) : string :=
  if Str.startswith b "/" then b
  else if bool_decide (a = "") || Str.endswith a "/" then a +:+ b
  else a +:+ "/" +:+ b.

(** [os.path.basename(p)]: what follows the last slash *)
Definition basename (p : string) : string :=
  Str.drop (Z.to_nat (Str.rfind "/" p + 1)) p.

(** A last component that can name a regular file: renaming a file onto a
    path whose last component is empty (the path ends in a slash), [.] or
    [..] fails. *)
Definition file_name (base : string) : bool :=
  negb (bool_decide (base = "") || bool_decide (base = ".")
        || bool_decide (base = "..")).

(** The path itself and the directories above it, outermost first. *)
Fixpoint chain (seen p : string) : list string :=
  match p with
  | "" => [seen]
  | String c p' =>
      (if Ascii.eqb c "/" then [seen] else [])
      ++ chain (seen +:+ String c "") p'
  end.

Definition ancestors (p : string) : list string :=
  List.filter (λ d, negb (bool_decide (d = ""))) (chain "" p).

End os_path.

(** [os.makedirs(name, exist_ok=True)]: the directory and every missing
    directory above it; one that is there already is left as it is. *)
Definition makedirs (name : string) : M unit :=
  λ w, (mkWorld (list_to_set (os_path.ancestors name) ∪ dirs w)
                (files w) (stdout w), inr tt).

(** ** The object store

    A bucket lists its keys in a fixed order; fetching a key gives its
    bytes or raises.  [rename_error filename] is the [OSError] of the
    operating system when a fetched object cannot be renamed to [filename];
    its text names the temporary file, whose suffix is random. *)

Record Bucket : Type := mkBucket {
  object_keys : list string;
  get_object : string → exn + bytes;
  rename_error : string → exn
}.

(** [s3.Bucket(name)] *)
Definition S3 : Type := string → Bucket.

(** [bucket.objects.filter(Prefix=prefix)] *)
Definition objects_filter (bucket : Bucket) (prefix : string) : list string :=
  List.filter (λ key, Str.startswith key prefix) (object_keys bucket).

(** [bucket.download_file(key, filename)]: the object is fetched into a
    temporary file beside [filename], which is renamed to [filename] when
    the transfer is complete and removed when the transfer or the renaming
    fails.  So the file appears, with the whole content, only when both
    succeed; the renaming fails when [filename] does not name a file, as
    for a key that ends in a slash (a folder placeholder). *)
Definition download_file (bucket : Bucket) (key filename : string) : M unit :=
  λ w, match get_object bucket key with
       | inl e => (w, inl e)
       | inr body =>
           if os_path.file_name (os_path.basename filename)
           then (mkWorld (dirs w) (<[filename := body]> (files w)) (stdout w),
                 inr tt)
           else (w, inl (rename_error bucket filename))
       end.

(** ** [download] *)

(** The body of the loop over the listed objects. *)
Definition download_body (bucket : Bucket) (target key : string) : M unit :=
  let! imagename := lift (extract_imagename key imagename_pattern) in
  let imagepath := os_path.join target imagename in
  makedirs imagepath >>
  let filename := os_path.basename key in
  download_file bucket key (os_path.join imagepath filename).

(** The listing is taken twice, by [list(files)] for the emptiness test and
    by the loop; the bucket does not change in between. *)
Definition download (bucket : Bucket) (product target : string) : M unit :=
  let files_ := objects_filter bucket product in
  match files_ with
  | [] => raise (FileNotFoundError
                   ("No se encontraron archivos para " +:+ product))
  | _ :: _ => for_each files_ (download_body bucket target)
  end.

(** ** The metadata table

    A catalogue product is a record of named attributes; the table built
    from a list of records has one column per attribute name that occurs,
    and a cell is missing (NaN) where a record lacks the attribute. *)

Definition record : Type := list (string * string).

Record DataFrame : Type := mkDataFrame {
  df_columns : list string;
  df_rows : list record
}.

Definition field (col : string) (r : record) : option string :=
  snd <$> List.find (λ kv, bool_decide (kv.1 = col)) r.

(** The names without repetition, in the order of their first
    appearance. *)
Fixpoint first_appearance (names : list string) : list string :=
  match names with
  | [] => []
  | x :: rest =>
      x :: List.filter (λ y, negb (bool_decide (y = x)))
                       (first_appearance rest)
  end.

(** [pd.DataFrame.from_dict(records)] *)
Definition from_dict (data : list record) : DataFrame :=
  mkDataFrame (first_appearance (concat (map (map fst) data))) data.

(** [df.empty]: some axis has length zero *)
Definition df_empty (df : DataFrame) : bool :=
  bool_decide (df_rows df = []) || bool_decide (df_columns df = []).

(** [df[col]] *)
Definition getitem (df : DataFrame) (col : string)
  : exn + list (option string) :=
  if bool_decide (col ∈ df_columns df)
  then inr (map (field col) (df_rows df))
  else inl (KeyError col).

(** [series[start:]] *)
Definition slice_from {A} (l : list A) (start : Z) : list A :=
  if start <? 0
  then drop (Z.to_nat (Z.max 0 (Z.of_nat (length l) + start))) l
  else drop (Z.to_nat start) l.

(** [enumerate(l, start=start)] *)
Fixpoint enumerate {A} (l : list A) (start : Z) : list (Z * A) :=
  match l with
  | [] => []
  | x :: l' => (start, x) :: enumerate l' (start + 1)
  end.

(** ** [get_copernicus_image_metadata] *)

(** The query string the function assembles. *)
Definition query_url (start_date end_date polygon collection : string)
    (cloud_cover : option Z) (product_type : option string) (srid : string)
  : string :=
  let query_url :=
    "https://catalogue.dataspace.copernicus.eu/odata/v1/Products"
    +:+ "?$filter="
    +:+ "OData.CSC.Intersects(area=geography'SRID=" +:+ srid
        +:+ ";POLYGON((" +:+ polygon +:+ "))')"
    +:+ " and ContentDate/Start gt " +:+ start_date
    +:+ " and ContentDate/Start lt " +:+ end_date
    +:+ " and Collection/Name eq '" +:+ collection +:+ "'" in
  let query_url :=
    match cloud_cover with
    | Some cloud_cover =>
        query_url
        +:+ " and Attributes/OData.CSC.DoubleAttribute/any(att:att/Name eq 'cloudCover' and att/OData.CSC.DoubleAttribute/Value lt "
        +:+ Str.of_int cloud_cover +:+ ")"
    | None => query_url
    end in
  let query_url :=
    match product_type with
    | Some product_type =>
        query_url
        +:+ " and Attributes/OData.CSC.StringAttribute/any(att:att/Name eq 'productType' and att/OData.CSC.StringAttribute/Value eq '"
        +:+ product_type +:+ "')"
    | None => query_url
    end in
  query_url.

(** [requests_get_json url] stands for [requests.get(url).json()]: the
    decoded answer, an object whose members hold arrays of records. *)
Definition get_copernicus_image_metadata
    (requests_get_json : string → exn + gmap string (list record))
    (start_date end_date polygon collection : string)
    (cloud_cover : option Z) (product_type : option string) (srid : string)
  : M DataFrame :=
  let! json_response :=
    lift (requests_get_json
            (query_url start_date end_date polygon collection
                       cloud_cover product_type srid)) in
  let! value :=
    lift (match json_response !! "value" with
          | Some value => inr value
          | None => inl (KeyError "value")
          end) in
  let df := from_dict value in
  (if df_empty df
   then print ("No se encontraron im" +:+ String "225"
                 "genes para los criterios especificados.")
   else ret tt) >>
  ret df.

(** ** [download_copernicus_images] *)

Definition progress_line (s3path : string) (idx : Z) : string :=
  "Descargando " +:+ s3path +:+ " (rengl" +:+ String "243" "n "
  +:+ Str.of_int idx +:+ ")...".

Definition error_line (s3path : string) (e : exn) : string :=
  "Error al descargar " +:+ s3path +:+ ": " +:+ str e.

(** The body of the loop over the rows; a missing cell is a float, which
    has no [startswith]. *)
Definition row_body (s3 : S3) (target_directory : string)
    (row : Z * option string) : M unit :=
  let '(idx, cell) := row in
  let! s3path :=
    lift (match cell with
          | Some s3path => inr (remove_prefix s3path "/eodata/")
          | None =>
              inl (AttributeError
                     "'float' object has no attribute 'startswith'")
          end) in
  print (progress_line s3path idx) >>
  try_except (download (s3 "eodata") s3path target_directory)
             (λ e, print (error_line s3path e)).

Definition download_copernicus_images (s3 : S3) (df : DataFrame)
    (start_row : Z) (target_directory : string) : M unit :=
  let! column := lift (getitem df "S3Path") in
  for_each (enumerate (slice_from column start_row) start_row)
           (row_body s3 target_directory).

(** * Vocabulary of the statements *)

(** ** Substrings and the naming pattern *)

(** [P] holds of some substring of [path]. *)
Definition occurs (P : string → Prop) (path : string) : Prop :=
  ∃ pre m post, path = pre +:+ m +:+ post ∧ P m.

(** [m] is the occurrence of [P] in [path] that [re.search] reports: it
    starts after [pre], no occurrence starts earlier, and none that starts
    at the same place is longer. *)
Definition first_match (P : string → Prop) (path pre m : string) : Prop :=
  (∃ post, path = pre +:+ m +:+ post) ∧ P m ∧
  ∀ pre' m' post', path = pre' +:+ m' +:+ post' → P m' →
    (String.length pre ≤ String.length pre')%nat ∧
    (String.length pre' = String.length pre →
     (String.length m' ≤ String.length m)%nat).

Definition is_digit (c : ascii) : bool := re.between "0" "9" c.

Definition is_alnum (c : ascii) : bool :=
  re.between "a" "z" c || re.between "A" "Z" c || re.between "0" "9" c.

Definition not_newline (c : ascii) : bool := negb (Ascii.eqb c "010").

(** One or more characters, all in the class. *)
Definition some_of (class : ascii → bool) (s : string) : Prop :=
  s ≠ "" ∧ Str.all class s = true.

(** The product name in words: S2A or S2B, [_MSI] and three characters,
    [_] digits [T] digits, [_N] digits, [_R] digits, [_T] and a tile code
    of letters and digits.  [three] says which three characters. *)
Definition product_name (three : ascii → bool) (m : string) : Prop :=
  ∃ sat x d1 d2 d3 d4 tile,
    m = "S2" +:+ sat +:+ "_MSI" +:+ x +:+ "_" +:+ d1 +:+ "T" +:+ d2
        +:+ "_N" +:+ d3 +:+ "_R" +:+ d4 +:+ "_T" +:+ tile
    ∧ (sat = "A" ∨ sat = "B")
    ∧ String.length x = 3%nat ∧ Str.all three x = true
    ∧ some_of is_digit d1 ∧ some_of is_digit d2
    ∧ some_of is_digit d3 ∧ some_of is_digit d4
    ∧ some_of is_alnum tile.

(** Three arbitrary characters. *)
Definition product_name_any3 : string → Prop := product_name (λ _, true).

(** Three characters of which none is a line feed. *)
Definition product_name_line : string → Prop := product_name not_newline.

(** ** The words a parse tree matches *)

Fixpoint language (ops : list re.node) (m : string) : Prop :=
  match ops with
  | [] => m = ""
  | re.AT a :: rest =>
      ∃ c m', m = String c m' ∧ re.atom_matches a c = true ∧ language rest m'
  | re.MAX_REPEAT lo hi a :: rest =>
      ∃ x m', m = x +:+ m'
        ∧ Str.all (re.atom_matches a) x = true
        ∧ (lo ≤ String.length x)%nat
        ∧ (∀ h, hi = Some h → (String.length x ≤ h)%nat)
        ∧ language rest m'
  end.

Definition all_chars : list ascii := ascii_of_nat <$> seq 0 256.

Definition disjoint_atoms (a b : re.atom) : bool :=
  forallb (λ c, negb (re.atom_matches a c && re.atom_matches b c)) all_chars.

(** A pattern that leaves the engine no choice but the length of a final
    repeat: a bounded repeat has a fixed count, an unbounded one is last or
    is followed by a character it cannot take itself. *)
Fixpoint deterministic (ops : list re.node) : bool :=
  match ops with
  | [] => true
  | re.AT _ :: rest => deterministic rest
  | re.MAX_REPEAT lo hi a :: rest =>
      match hi with
      | Some h => (lo =? h)%nat
      | None =>
          match rest with
          | [] => true
          | re.AT b :: _ => disjoint_atoms a b
          | re.MAX_REPEAT _ _ _ :: _ => false
          end
      end && deterministic rest
  end.

(** ** The query as a list of clauses *)

Definition catalogue : string :=
  "https://catalogue.dataspace.copernicus.eu/odata/v1/Products?$filter=".

Definition intersects_clause (srid polygon : string) : string :=
  "OData.CSC.Intersects(area=geography'SRID=" +:+ srid +:+ ";POLYGON(("
  +:+ polygon +:+ "))')".

Definition start_after_clause (start_date : string) : string :=
  "ContentDate/Start gt " +:+ start_date.

Definition start_before_clause (end_date : string) : string :=
  "ContentDate/Start lt " +:+ end_date.

Definition collection_clause (collection : string) : string :=
  "Collection/Name eq '" +:+ collection +:+ "'".

Definition cloud_cover_clause (cloud_cover : Z) : string :=
  "Attributes/OData.CSC.DoubleAttribute/any(att:att/Name eq 'cloudCover' and att/OData.CSC.DoubleAttribute/Value lt "
  +:+ Str.of_int cloud_cover +:+ ")".

Definition product_type_clause (product_type : string) : string :=
  "Attributes/OData.CSC.StringAttribute/any(att:att/Name eq 'productType' and att/OData.CSC.StringAttribute/Value eq '"
  +:+ product_type +:+ "')".

Definition filter_clauses (start_date end_date polygon collection : string)
    (cloud_cover : option Z) (product_type : option string) (srid : string)
  : list string :=
  [intersects_clause srid polygon; start_after_clause start_date;
   start_before_clause end_date; collection_clause collection]
  ++ option_list (cloud_cover_clause <$> cloud_cover)
  ++ option_list (product_type_clause <$> product_type).

(** The clauses with [" and "] between them. *)
Fixpoint join_and (clauses : list string) : string :=
  match clauses with
  | [] => ""
  | [c] => c
  | c :: rest => c +:+ " and " +:+ join_and rest
  end.

(** ** One row of the batch, seen from outside *)

Definition printed (line : string) (w : World) : World :=
  mkWorld (dirs w) (files w) (stdout w ++ [line]).

(** The world after the row [(idx, s3path)]: the progress line, what
    [download] did, and the error line if it raised. *)
Definition row_step (s3 : S3) (target_directory : string) (w : World)
    (row : Z * string) : World :=
  let s3path := remove_prefix row.2 "/eodata/" in
  match download (s3 "eodata") s3path target_directory
                 (printed (progress_line s3path row.1) w) with
  | (w', inr _) => w'
  | (w', inl e) => printed (error_line s3path e) w'
  end.

(** Where [download] puts the object [key] of the image [imagename]. *)
Definition local_path (target imagename key : string) : string :=
  os_path.join (os_path.join target imagename) (os_path.basename key).

(** ** Files on disk after a loop over listed objects *)

(** Where the loop writes the object [key], if its name is recognised. *)
Definition destination (target key : string) : option string :=
  match extract_imagename key imagename_pattern with
  | inr imagename => Some (local_path target imagename key)
  | inl _ => None
  end.

(** After the loop over [keys], the object [key] is on disk: its image
    directory exists and its local path holds what was fetched for it, or
    for an object of [keys] with the same local path. *)
Definition stored (bucket : Bucket) (target : string) (keys : list string)
    (w : World) (key : string) : Prop :=
  ∃ imagename path,
    extract_imagename key imagename_pattern = inr imagename
    ∧ path = local_path target imagename key
    ∧ os_path.join target imagename ∈ dirs w
    ∧ ∃ key' body, key' ∈ keys ∧ destination target key' = Some path
        ∧ get_object bucket key' = inr body ∧ files w !! path = Some body.

(** The worlds the body of the loop leaves behind. *)
Definition after_makedirs (target imagename : string) (w : World) : World :=
  (makedirs (os_path.join target imagename) w).1.

Definition after_download (target imagename key : string) (body : bytes)
    (w : World) : World :=
  mkWorld (dirs (after_makedirs target imagename w))
          (<[local_path target imagename key := body]> (files w))
          (stdout w).

(** What [extract_imagename] raises. *)
Definition no_match : exn :=
  ValueError "No match found for the pattern in the provided path.".

(** ** Rows of the table *)

(** A row as the loop sees it: its index and its [S3Path] cell. *)
Definition with_cell (row : Z * string) : Z * option string :=
  (row.1, Some row.2).

(** The row at position [i], counted from the top of the table. *)
Definition positional {A} (rows : list A) (i : Z) : option A :=
  if i <? 0 then None else rows !! Z.to_nat i.

(** The rows at the positions [start_row], [start_row + 1], ... up to the
    last one, in that order, each with its position in the whole table. *)
Definition rows_by_position {A} (rows : list A) (start_row : Z)
  : list (Z * A) :=
  omap (λ i, pair i <$> positional rows i)
       (seqZ start_row (Z.of_nat (length rows) - start_row)).

(** What [get_copernicus_image_metadata] prints when nothing matches. *)
Definition nothing_found : string :=
  "No se encontraron im" +:+ String "225"
    "genes para los criterios especificados.".

(** ** A small store and table to run the model on *)

Definition empty_world : World := mkWorld ∅ ∅ [].

Definition product_a : string :=
  "Sentinel-2/MSI/L1C/2024/04/30/S2A_MSIL1C_20240430T000000_N0500_R001_T16QCD.SAFE".

Definition product_b : string :=
  "Sentinel-2/MSI/L1C/2024/04/30/S2B_MSIL1C_20240430T153609_N0510_R110_T17QKA.SAFE/file1.jp2".

Definition product_c : string :=
  "Sentinel-2/MSI/L1C/2024/05/01/S2A_MSIL1C_20240501T000000_N0500_R002_T16QCD.SAFE".

Definition mixed_name : string :=
  "mixed/S2A_MSIL2A_20240430T000000_N0500_R001_T16QCD.SAFE".

(** The error of renaming the temporary file to a path that ends in a
    slash. *)
Definition not_a_directory (filename : string) : exn :=
  NotADirectoryError
    ("[Errno 20] Not a directory: '" +:+ filename +:+ ".3fA1b2C0' -> '"
     +:+ filename +:+ "'").

(** The second band of [product_a] cannot be fetched; every other object
    holds its own key as content. *)
Definition sample_bucket : Bucket :=
  mkBucket
    [product_a +:+ "/B01.jp2"; product_a +:+ "/B02.jp2";
     product_a +:+ "/B03.jp2"; product_b; product_c +:+ "/B01.jp2";
     mixed_name +:+ "/B01.jp2"; "mixed/notes.txt";
     mixed_name +:+ "/B02.jp2"]
    (λ key, if bool_decide (key = product_a +:+ "/B02.jp2")
            then inl (ClientError "An error occurred (404)")
            else inr (String.list_byte_of_string key))
    not_a_directory.

Definition sample_s3 : S3 := λ _, sample_bucket.

Definition sample_paths : list string :=
  ["/eodata/" +:+ product_b; "/eodata/" +:+ product_a;
   "/eodata/" +:+ product_c].

Definition sample_table : DataFrame :=
  from_dict ((λ p, [("Name", "product"); ("S3Path", p)]) <$> sample_paths).

Definition sample_path : string :=
  "Sentinel-2/S2A_MSIL1C_20240430T000000_N0500_R001_T16QCD.SAFE/B01.jp2".

(** Three characters after [_MSI], the first of them a line feed. *)
Definition newline_path : string :=
  "S2A_MSI" +:+ String "010" "1C_20240430T000000_N0500_R001_T16QCD".

(** ** What a computation does, whatever the world it starts from *)

(** Directories made, files written (in that order) and lines printed. *)
Record Effect : Type := mkEffect {
  made : list string;
  written : list (string * bytes);
  printed_lines : list string
}.

Definition write_all (m : gmap string bytes) (ws : list (string * bytes))
  : gmap string bytes :=
  foldl (λ m pb, <[pb.1 := pb.2]> m) m ws.

Definition apply_effect (E : Effect) (w : World) : World :=
  mkWorld (list_to_set (made E) ∪ dirs w)
          (write_all (files w) (written E))
          (stdout w ++ printed_lines E).

Definition no_effect : Effect := mkEffect [] [] [].

Definition effect_app (E1 E2 : Effect) : Effect :=
  mkEffect (made E1 ++ made E2) (written E1 ++ written E2)
           (printed_lines E1 ++ printed_lines E2).

(** [c] acts by [E] and ends with [r] from every world. *)
Definition acts_by {A} (c : M A) (E : Effect) (r : exn + A) : Prop :=
  ∀ w, c w = (apply_effect E w, r).

(** A computation that acts the same from every world and prints
    nothing. *)
Definition silent (c : M unit) : Prop :=
  ∃ E r, acts_by c E r ∧ printed_lines E = [].

(** The last thing written to [path] by a list of writes. *)
Fixpoint last_write (ws : list (string * bytes)) (path : string)
  : option bytes :=
  match ws with
  | [] => None
  | pb :: ws' =>
      match last_write ws' path with
      | Some b => Some b
      | None => if bool_decide (pb.1 = path) then Some pb.2 else None
      end
  end.

(** ** [descargar_sentinel_2.py] *)

Definition fecha_inicial : string := "2024-04-30T00:00:00.000Z".
Definition fecha_final : string := "2024-05-01T00:00:00.000Z".
Definition poligono : string :=
  "-66.971000 21.651000, -66.911000 20.761000,-66.043000 20.822000, -66.043000 21.611000, -86.971000 21.651000".
Definition satelite : string := "SENTINEL-2".
Definition producto : string := "S2MSI1C".

(** [df.head(n)] *)
Definition df_head (n : nat) (df : DataFrame) : DataFrame :=
  mkDataFrame (df_columns df) (take n (df_rows df)).

(** The script: query, print the first five rows, download from row 1 on.
    [to_string] stands for the text pandas prints for a table, which is
    not modelled; [s3] is the resource the script builds. *)
Definition descargar_sentinel_2 (to_string : DataFrame → string)
    (requests_get_json : string → exn + gmap string (list record))
    (s3 : S3) : M unit :=
  let! df :=
    get_copernicus_image_metadata requests_get_json fecha_inicial
      fecha_final poligono satelite None (Some producto) "4326" in
  print (to_string (df_head 5 df)) >>
  download_copernicus_images s3 df 1 "imagenes_descargadas".

(** The shortest text the naming pattern can match. *)
Definition shortest_name : nat := 23.

Definition not_S (c : ascii) : bool := negb (Ascii.eqb c "S").


(** What [remove_prefix] raises on a missing cell. *)
Definition no_startswith : exn :=
  AttributeError "'float' object has no attribute 'startswith'".

(** A row reported under another index. *)
Definition reindexed (d : Z) (row : Z * string) : Z * string :=
  (row.1 + d, row.2).

(** [w1] keeps what [w] had: no directory is gone, what was printed is
    still the beginning of the output, and a file that differs is at the
    local path of one of the [listed] objects and holds the bytes fetched
    for such an object. *)
Definition extends (bucket : Bucket) (target : string)
    (listed : string → Prop) (w w1 : World) : Prop :=
  dirs w ⊆ dirs w1
  ∧ (∀ path, files w1 !! path = files w !! path
             ∨ ∃ key body,
                 listed key
                 ∧ destination target key = Some path
                 ∧ get_object bucket key = inr body
                 ∧ files w1 !! path = Some body)
  ∧ stdout w `prefix_of` stdout w1.

(** The objects listed for the stripped path of one of the cells. *)
Definition listed_for (s3 : S3) (cells : list (option string))
    (key : string) : Prop :=
  ∃ p, Some p ∈ cells
       ∧ key ∈ objects_filter (s3 "eodata") (remove_prefix p "/eodata/").

(** The objects the batch asks for: those listed for the rows of the slice
    [[start_row:]] of the [S3Path] column. *)
Definition batch_objects (s3 : S3) (df : DataFrame) (start_row : Z)
    (key : string) : Prop :=
  ∃ cells, getitem df "S3Path" = inr cells
           ∧ listed_for s3 (slice_from cells start_row) key.

(** The query the script sends. *)
Definition script_url : string :=
  query_url fecha_inicial fecha_final poligono satelite None (Some producto)
            "4326".

(** Two files of one product with the same name in different folders. *)
Definition folders_bucket : Bucket :=
  mkBucket
    [product_a +:+ "/GRANULE/MTD.xml"; product_a +:+ "/MTD.xml"]
    (λ key, inr (String.list_byte_of_string key))
    not_a_directory.



(** Three products, the second without an [S3Path]. *)
Definition gap_table : DataFrame :=
  from_dict
    [[("Name", "first"); ("S3Path", "/eodata/" +:+ product_b)];
     [("Name", "second")];
     [("Name", "third"); ("S3Path", "/eodata/" +:+ product_c)]].

Definition sample_records : list record :=
  (λ p, [("Name", "product"); ("S3Path", p)]) <$> sample_paths.

(** A pattern for another family of names: [r"(S1[AB]_\d+)"]. *)
Definition sentinel1_ops : list re.node :=
  re.literals "S1"
  ++ [re.AT (re.IN [re.SET_LITERAL "A"; re.SET_LITERAL "B"])]
  ++ re.literals "_" ++ [re.digits1].

Definition sentinel1_pattern : re.regex := re.GROUP1 sentinel1_ops.

(** * Strings *)

Section strings.
Implicit Types s t u p : string.

Lemma app_cons c s t : String c s +:+ t = String c (s +:+ t).
Proof. reflexivity. Qed.

Lemma app_empty_l s : "" +:+ s = s.
Proof. reflexivity. Qed.

Lemma app_empty_r s : s +:+ "" = s.
Proof. induction s as [|c s IH]; [done|]. by rewrite app_cons, IH. Qed.

Lemma app_assoc_str s t u : (s +:+ t) +:+ u = s +:+ t +:+ u.
Proof. induction s as [|c s IH]; [done|]. by rewrite !app_cons, IH. Qed.

Lemma length_app_str s t :
  String.length (s +:+ t) = (String.length s + String.length t)%nat.
Proof.
  induction s as [|c s IH]; [done|]. rewrite app_cons. simpl. by rewrite IH.
Qed.

Lemma app_eq_empty s t : s +:+ t = "" → s = "" ∧ t = "".
Proof. destruct s; [done|]. by rewrite app_cons. Qed.

Lemma length_zero_empty s : String.length s = 0%nat → s = "".
Proof. by destruct s. Qed.

Lemma startswith_app p t : Str.startswith (p +:+ t) p = true.
Proof.
  induction p as [|c p IH]; [done|].
  rewrite app_cons. simpl. by rewrite Ascii.eqb_refl, IH.
Qed.

Lemma startswith_inv s p :
  Str.startswith s p = true → ∃ t, s = p +:+ t.
Proof.
  revert s. induction p as [|c p IH]; intros s H.
  - by exists s.
  - destruct s as [|x s]; [done|]. simpl in H.
    apply andb_prop in H as [Hc H]. apply Ascii.eqb_eq in Hc as ->.
    destruct (IH _ H) as [t ->]. by exists t.
Qed.

Lemma startswith_iff s p : Str.startswith s p = true ↔ ∃ t, s = p +:+ t.
Proof.
  split; [apply startswith_inv|]. intros [t ->]. apply startswith_app.
Qed.

Lemma str_drop_app p t : Str.drop (String.length p) (p +:+ t) = t.
Proof. induction p as [|c p IH]; [done|]. by rewrite app_cons. Qed.

Lemma str_take_app p t : Str.take (String.length p) (p +:+ t) = p.
Proof.
  induction p as [|c p IH]; [done|]. rewrite app_cons. simpl. by rewrite IH.
Qed.

Lemma str_take_drop n s : Str.take n s +:+ Str.drop n s = s.
Proof.
  revert s. induction n as [|n IH]; intros [|c s]; try done.
  simpl. by rewrite app_cons, IH.
Qed.

Lemma str_length_take n s :
  (n ≤ String.length s)%nat → String.length (Str.take n s) = n.
Proof.
  revert s. induction n as [|n IH]; intros [|c s] H; simpl in *;
    try done; try lia.
  rewrite IH; lia.
Qed.

Lemma str_length_drop n s :
  String.length (Str.drop n s) = (String.length s - n)%nat.
Proof.
  revert s. induction n as [|n IH]; intros [|c s]; simpl; try done; lia.
Qed.

Lemma str_take_add n k s :
  Str.take (n + k) s = Str.take n s +:+ Str.take k (Str.drop n s).
Proof.
  revert s. induction n as [|n IH]; intros s; [done|].
  destruct s as [|c s]; simpl.
  - by destruct k.
  - by rewrite app_cons, IH.
Qed.

(** Two ways of cutting one string at the same place are the same cut. *)
Lemma app_same_length s t s' t' :
  s +:+ t = s' +:+ t' → String.length s = String.length s' →
  s = s' ∧ t = t'.
Proof.
  revert s'. induction s as [|c s IH]; intros [|c' s'] H Hl;
    simpl in *; try done.
  rewrite !app_cons in H. injection H as -> H.
  destruct (IH s' H) as [-> ->]; [lia|done].
Qed.

Lemma all_app f s t :
  Str.all f (s +:+ t) = Str.all f s && Str.all f t.
Proof.
  induction s as [|c s IH]; [done|].
  rewrite app_cons. simpl. rewrite IH. by destruct (f c).
Qed.

End strings.

(** * [remove_prefix] *)

Lemma remove_prefix_absent s p :
  Str.startswith s p = false → remove_prefix s p = s.
Proof. unfold remove_prefix. by intros ->. Qed.

Lemma remove_prefix_present p t : remove_prefix (p +:+ t) p = t.
Proof. unfold remove_prefix. by rewrite startswith_app, str_drop_app. Qed.

Lemma app_longer_ne p t : p ≠ "" → p +:+ t ≠ t.
Proof.
  intros Hp H. apply (f_equal String.length) in H.
  rewrite length_app_str in H. destruct p; [done|]. simpl in H. lia.
Qed.

(** C2, as the code has it: a string that does not start with [/eodata/]
    comes back unchanged, one that does loses that prefix once, and a
    second application changes nothing exactly when the string does not
    start with the prefix twice over. *)
Theorem remove_prefix_twice :
  (∀ s, Str.startswith s "/eodata/" = false →
        remove_prefix s "/eodata/" = s) ∧
  (∀ t, remove_prefix ("/eodata/" +:+ t) "/eodata/" = t) ∧
  (∀ s, remove_prefix (remove_prefix s "/eodata/") "/eodata/"
        = remove_prefix s "/eodata/"
        ↔ Str.startswith s "/eodata//eodata/" = false).
Proof.
  split; [|split].
  - intros s. apply remove_prefix_absent.
  - intros t. apply remove_prefix_present.
  - intros s. destruct (Str.startswith s "/eodata/") eqn:H1.
    + apply startswith_inv in H1 as [t ->].
      rewrite remove_prefix_present.
      destruct (Str.startswith t "/eodata/") eqn:H2.
      * apply startswith_inv in H2 as [u ->]. rewrite remove_prefix_present.
        split.
        -- intros H. symmetry in H. by apply app_longer_ne in H.
        -- intros H. exfalso.
           change "/eodata//eodata/" with ("/eodata/" +:+ "/eodata/") in H.
           rewrite <- app_assoc_str, startswith_app in H. done.
      * rewrite (remove_prefix_absent _ _ H2). split; [|done]. intros _.
        destruct (Str.startswith ("/eodata/" +:+ t) "/eodata//eodata/")
          eqn:H3; [|done].
        apply startswith_inv in H3 as [u H3].
        change "/eodata//eodata/" with ("/eodata/" +:+ "/eodata/") in H3.
        rewrite app_assoc_str in H3. apply String.app_inj in H3. subst t.
        by rewrite startswith_app in H2.
    + rewrite (remove_prefix_absent _ _ H1), (remove_prefix_absent _ _ H1).
      split; [|done]. intros _.
      destruct (Str.startswith s "/eodata//eodata/") eqn:H3; [|done].
      apply startswith_inv in H3 as [u ->].
      change "/eodata//eodata/" with ("/eodata/" +:+ "/eodata/") in H1.
      by rewrite app_assoc_str, startswith_app in H1.
Qed.

Lemma remove_prefix_twice_witness :
  remove_prefix "Sentinel-2/MSI" "/eodata/" = "Sentinel-2/MSI" ∧
  remove_prefix
    (remove_prefix "/eodata/Sentinel-2/MSI" "/eodata/") "/eodata/"
  = remove_prefix "/eodata/Sentinel-2/MSI" "/eodata/".
Proof.
  split.
  - apply (proj1 remove_prefix_twice). reflexivity.
  - apply (proj2 (proj2 remove_prefix_twice)). reflexivity.
Defined.

(** C2 as stated fails: stripping is not idempotent on a path that
    carries the prefix twice. *)
Lemma remove_prefix_not_idempotent :
  remove_prefix (remove_prefix "/eodata//eodata/x" "/eodata/") "/eodata/"
  ≠ remove_prefix "/eodata//eodata/x" "/eodata/".
Proof. vm_compute. discriminate. Qed.

(** * The matcher against the language of its parse tree *)

Section backtracking.
Context {A : Type} (try : nat → option A).

Lemma backtrack_unfold lo k :
  re.backtrack try lo k
  = if (k <? lo)%nat then None
    else match try k with
         | Some r => Some r
         | None => match k with
                   | O => None
                   | S k' => re.backtrack try lo k'
                   end
         end.
Proof. by destruct k. Qed.

Lemma backtrack_Some lo k r :
  re.backtrack try lo k = Some r →
  ∃ j, (lo ≤ j ≤ k)%nat ∧ try j = Some r.
Proof.
  induction k as [|k IH]; rewrite backtrack_unfold;
    (destruct (_ <? lo)%nat eqn:E; [done|]); apply Nat.ltb_ge in E.
  - destruct (try 0%nat) eqn:T; [|done].
    intros [= ->]. exists 0%nat. split; [lia|done].
  - destruct (try (S k)) eqn:T.
    + intros [= ->]. exists (S k). split; [lia|done].
    + intros H. destruct (IH H) as (j & ? & ?). exists j. split; [lia|done].
Qed.

Lemma backtrack_top lo k r :
  (lo ≤ k)%nat → try k = Some r → re.backtrack try lo k = Some r.
Proof.
  intros Hk T. rewrite backtrack_unfold.
  destruct (_ <? lo)%nat eqn:E; [apply Nat.ltb_lt in E; lia|].
  by rewrite T.
Qed.

Lemma backtrack_is_Some lo k j :
  (lo ≤ j ≤ k)%nat → is_Some (try j) → is_Some (re.backtrack try lo k).
Proof.
  intros Hj Hs. induction k as [|k IH]; rewrite backtrack_unfold;
    (destruct (_ <? lo)%nat eqn:E; [apply Nat.ltb_lt in E; lia|]).
  - replace j with 0%nat in Hs by lia. destruct Hs as [r ->]. eauto.
  - destruct (try (S k)) eqn:T; [eauto|].
    apply IH. destruct (decide (j = S k)) as [->|]; [|lia].
    rewrite T in Hs. by destruct Hs.
Qed.

End backtracking.

Section runs.
Variable a : re.atom.

Lemma run_length_le s : (re.run_length a s ≤ String.length s)%nat.
Proof.
  induction s as [|c s IH]; simpl; [lia|].
  destruct (re.atom_matches a c); lia.
Qed.

Lemma run_length_take j s :
  (j ≤ re.run_length a s)%nat →
  Str.all (re.atom_matches a) (Str.take j s) = true.
Proof.
  revert s. induction j as [|j IH]; intros [|c s] H; simpl in *;
    try done; try lia.
  destruct (re.atom_matches a c); [|lia]. simpl. apply IH. lia.
Qed.

Lemma run_length_app x t :
  Str.all (re.atom_matches a) x = true →
  (String.length x ≤ re.run_length a (x +:+ t))%nat.
Proof.
  induction x as [|c x IH]; simpl; [lia|]. intros H.
  apply andb_prop in H as [Hc H]. rewrite ?app_cons. simpl. rewrite Hc.
  specialize (IH H). lia.
Qed.

Lemma run_length_stop x c t :
  Str.all (re.atom_matches a) x = true →
  re.atom_matches a c = false →
  re.run_length a (x +:+ String c t) = String.length x.
Proof.
  induction x as [|d x IH]; simpl; intros H Hc.
  - rewrite ?app_empty_l. simpl. by rewrite Hc.
  - apply andb_prop in H as [Hd H]. rewrite ?app_cons. simpl. rewrite Hd.
    by rewrite IH.
Qed.

Lemma greedy_count_le hi s :
  (re.greedy_count a hi s ≤ re.run_length a s)%nat.
Proof. destruct hi; simpl; lia. Qed.

Lemma greedy_count_bound h s : (re.greedy_count a (Some h) s ≤ h)%nat.
Proof. simpl. lia. Qed.

End runs.

Lemma sre_match_sound ops : ∀ s n,
  re.sre_match ops s = Some n →
  (n ≤ String.length s)%nat ∧ language ops (Str.take n s).
Proof.
  induction ops as [|[a|lo hi a] rest IH]; intros s n H; simpl in H.
  - injection H as <-. split; [lia|]. by destruct s.
  - destruct s as [|c s]; [done|].
    destruct (re.atom_matches a c) eqn:Ha; [|done].
    destruct (re.sre_match rest s) as [n'|] eqn:Hr; [|done].
    injection H as <-. destruct (IH _ _ Hr) as [Hn HL].
    split; [simpl; lia|]. simpl. by exists c, (Str.take n' s).
  - apply backtrack_Some in H as (j & Hj & H).
    destruct (re.sre_match rest (Str.drop j s)) as [n'|] eqn:Hr; [|done].
    injection H as <-. destruct (IH _ _ Hr) as [Hn HL].
    rewrite str_length_drop in Hn.
    pose proof (greedy_count_le a hi s). pose proof (run_length_le a s).
    split; [lia|]. simpl.
    exists (Str.take j s), (Str.take n' (Str.drop j s)).
    split; [apply str_take_add|]. split; [apply run_length_take; lia|].
    rewrite str_length_take by lia. split; [lia|]. split; [|done].
    intros h ->. pose proof (greedy_count_bound a h s). lia.
Qed.

Lemma sre_match_complete ops : ∀ m post,
  language ops m → is_Some (re.sre_match ops (m +:+ post)).
Proof.
  induction ops as [|[a|lo hi a] rest IH]; intros m post; simpl.
  - intros ->. eauto.
  - intros (c & m' & -> & Ha & HL). rewrite app_cons, Ha.
    destruct (IH _ post HL) as [n ->]. simpl. eauto.
  - intros (x & m' & -> & Hx & Hlo & Hhi & HL). rewrite app_assoc_str.
    apply backtrack_is_Some with (j := String.length x).
    + split; [done|]. pose proof (run_length_app a x (m' +:+ post) Hx).
      destruct hi as [h|]; simpl; [|done]. specialize (Hhi h eq_refl). lia.
    + rewrite str_drop_app. destruct (IH _ post HL) as [n ->]. simpl. eauto.
Qed.

Lemma In_all_chars c : In c all_chars.
Proof.
  unfold all_chars. rewrite <- (ascii_nat_embedding c).
  apply in_map, in_seq. pose proof (nat_ascii_bounded c). lia.
Qed.

Lemma disjoint_atoms_spec a b c :
  disjoint_atoms a b = true → re.atom_matches b c = true →
  re.atom_matches a c = false.
Proof.
  intros H Hb. unfold disjoint_atoms in H.
  rewrite forallb_forall in H. specialize (H c (In_all_chars c)).
  rewrite Hb in H. by destruct (re.atom_matches a c).
Qed.

(** On a deterministic pattern the engine's match is at least as long as
    any word of the language found at the same place. *)
Lemma sre_match_longest ops : deterministic ops = true → ∀ m post,
  language ops m →
  ∃ n, re.sre_match ops (m +:+ post) = Some n ∧ (String.length m ≤ n)%nat.
Proof.
  induction ops as [|[a|lo hi a] rest IH]; intros Hd m post; simpl.
  - intros ->. exists 0%nat. split; [done|simpl; lia].
  - intros (c & m' & -> & Ha & HL). rewrite app_cons, Ha.
    destruct (IH Hd _ post HL) as (n & -> & Hn). exists (S n).
    split; [done|simpl; lia].
  - intros (x & m' & -> & Hx & Hlo & Hhi & HL).
    simpl in Hd. apply andb_prop in Hd as [Hc Hd].
    rewrite app_assoc_str, length_app_str.
    pose proof (run_length_app a x (m' +:+ post) Hx) as Hrun.
    destruct hi as [h|].
    + apply Nat.eqb_eq in Hc as ->. specialize (Hhi h eq_refl).
      assert (String.length x = h) as Hh by lia.
      destruct (IH Hd _ post HL) as (n & Hm & Hn). exists (h + n)%nat.
      split; [|lia]. apply backtrack_top; [simpl; lia|].
      replace (re.greedy_count a (Some h) (x +:+ m' +:+ post)) with h
        by (simpl; lia).
      rewrite <- Hh at 2. by rewrite str_drop_app, Hm.
    + destruct rest as [|[b|? ? ?] rest']; [| |done].
      * simpl in HL. subst m'. simpl.
        exists (re.run_length a (x +:+ "" +:+ post) + 0)%nat.
        split; [|simpl; lia]. apply backtrack_top; [lia|done].
      * destruct (IH Hd _ post HL) as (n & Hm & Hn).
        exists (String.length x + n)%nat. split; [|lia].
        pose proof HL as (c & m'' & -> & Hb & _).
        rewrite app_cons in *. simpl re.greedy_count.
        rewrite (run_length_stop a x c _ Hx
                   (disjoint_atoms_spec _ _ _ Hc Hb)).
        apply backtrack_top; [done|]. by rewrite str_drop_app, Hm.
Qed.

(** ** [re.search] *)

Lemma search_here ops s n :
  re.sre_match ops s = Some n → re.search ops s = Some (Str.take n s).
Proof. intros H. destruct s; simpl; by rewrite H. Qed.

Lemma search_None ops s :
  re.search ops s = None →
  ∀ pre rest, s = pre +:+ rest → re.sre_match ops rest = None.
Proof.
  induction s as [|c s IH]; simpl; intros H pre rest E;
    destruct (re.sre_match ops _) eqn:Hm; try done.
  - symmetry in E. apply app_eq_empty in E as [_ ->]. done.
  - destruct pre as [|c' pre].
    + rewrite app_empty_l in E. by subst rest.
    + rewrite app_cons in E. injection E as _ E. by apply (IH H pre).
Qed.

Lemma search_Some ops s m :
  re.search ops s = Some m →
  ∃ pre post, s = pre +:+ m +:+ post
    ∧ re.sre_match ops (m +:+ post) = Some (String.length m)
    ∧ ∀ pre' rest', s = pre' +:+ rest' →
        (String.length pre' < String.length pre)%nat →
        re.sre_match ops rest' = None.
Proof.
  assert (∀ s n, re.sre_match ops s = Some n →
            ∃ post, s = Str.take n s +:+ post
              ∧ re.sre_match ops (Str.take n s +:+ post)
                = Some (String.length (Str.take n s))) as Hhere.
  { intros s' n Hm. exists (Str.drop n s').
    destruct (sre_match_sound _ _ _ Hm) as [Hn _].
    by rewrite str_take_drop, str_length_take. }
  revert m. induction s as [|c s IH]; intros m; simpl;
    destruct (re.sre_match ops _) as [n|] eqn:Hm; try done.
  - intros [= <-]. destruct (Hhere _ _ Hm) as (post & E & Hp).
    exists "", post. split; [done|]. split; [done|]. simpl. lia.
  - intros [= <-]. destruct (Hhere _ _ Hm) as (post & E & Hp).
    exists "", post. split; [done|]. split; [done|]. simpl. lia.
  - intros H. destruct (IH _ H) as (pre & post & -> & Hp & Hfirst).
    exists (String c pre), post. split; [done|]. split; [done|].
    intros [|c' pre'] rest' E Hl.
    + rewrite app_empty_l in E. by subst rest'.
    + rewrite !app_cons in E. injection E as _ E.
      apply (Hfirst pre' rest' E). simpl in Hl. lia.
Qed.

Lemma search_occurs ops path :
  occurs (language ops) path → is_Some (re.search ops path).
Proof.
  intros (pre & m & post & -> & HL).
  destruct (re.search ops (pre +:+ m +:+ post)) eqn:H; [eauto|].
  pose proof (search_None _ _ H pre (m +:+ post) eq_refl) as Hn.
  destruct (sre_match_complete ops m post HL) as [n Hs]. congruence.
Qed.

Lemma search_not_occurs ops path :
  ¬ occurs (language ops) path → re.search ops path = None.
Proof.
  intros Hno. destruct (re.search ops path) as [m|] eqn:H; [|done].
  destruct Hno. apply search_Some in H as (pre & post & -> & Hm & _).
  exists pre, m, post. split; [done|].
  destruct (sre_match_sound _ _ _ Hm) as [_ HL]. by rewrite str_take_app in HL.
Qed.

Lemma search_first ops path m :
  deterministic ops = true → re.search ops path = Some m →
  ∃ pre, first_match (language ops) path pre m.
Proof.
  intros Hd H. apply search_Some in H as (pre & post & -> & Hm & Hfirst).
  exists pre. split; [by exists post|].
  destruct (sre_match_sound _ _ _ Hm) as [_ HL]. rewrite str_take_app in HL.
  split; [done|]. intros pre' m' post' E HL'.
  assert (String.length pre ≤ String.length pre')%nat as Hle.
  { destruct (decide (String.length pre' < String.length pre)%nat) as [Hlt|];
      [|lia].
    pose proof (Hfirst _ _ E Hlt) as Hn.
    destruct (sre_match_complete ops m' post' HL') as [n Hs]. congruence. }
  split; [done|]. intros Hl.
  apply app_same_length in E as [_ E]; [|done].
  destruct (sre_match_longest ops Hd m' post' HL') as (n & Hs & Hn).
  rewrite <- E, Hm in Hs. injection Hs as <-. done.
Qed.

(** * The image-name pattern, in words and as a parse tree *)

Lemma all_ext f g s : (∀ c, f c = g c) → Str.all f s = Str.all g s.
Proof. intros E. induction s as [|c s IH]; simpl; [done|]. by rewrite E, IH. Qed.

Lemma all_digits s :
  Str.all (re.atom_matches (re.IN [re.CATEGORY_DIGIT])) s
  = Str.all is_digit s.
Proof. apply all_ext. intros c. simpl. apply orb_false_r. Qed.

Lemma all_alnum s :
  Str.all (re.atom_matches
             (re.IN [re.SET_RANGE "a" "z"; re.SET_RANGE "A" "Z";
                     re.SET_RANGE "0" "9"])) s
  = Str.all is_alnum s.
Proof.
  apply all_ext. intros c. unfold is_alnum. simpl.
  by rewrite orb_false_r, orb_assoc.
Qed.

Lemma some_of_length class s :
  some_of class s ↔ (1 ≤ String.length s)%nat ∧ Str.all class s = true.
Proof.
  unfold some_of. destruct s; simpl; split; intros [? ?]; split;
    try done; lia.
Qed.

Lemma imagename_pattern_deterministic :
  deterministic imagename_ops = true.
Proof. vm_compute. reflexivity. Qed.

Ltac literal_in H :=
  let c := fresh "c" in let E := fresh "E" in let r := fresh "rest" in
  destruct H as (c & r & -> & E & H);
  simpl in E; apply Ascii.eqb_eq in E; subst c.

Ltac repeat_in H x :=
  let Ha := fresh "Hall" in let Hlo := fresh "Hlo" in
  let Hhi := fresh "Hhi" in let r := fresh "rest" in
  destruct H as (x & r & -> & Ha & Hlo & Hhi & H).

Ltac literal_goal :=
  eexists _, _; split; [reflexivity|]; split; [reflexivity|].

Ltac repeat_goal d :=
  eexists d, _; split; [reflexivity|];
  split; [by rewrite ?all_digits|];
  split; [try done; lia|];
  split; [intros ? ?; simplify_eq; lia|].

Lemma language_imagename m :
  language imagename_ops m ↔ product_name_line m.
Proof.
  split.
  - intros H. unfold imagename_ops in H. simpl in H.
    do 2 literal_in H.
    destruct H as (sat & rest' & -> & Hsat & H). simpl in Hsat.
    do 4 literal_in H. repeat_in H x.
    literal_in H. repeat_in H d1.
    literal_in H. repeat_in H d2.
    do 2 literal_in H. repeat_in H d3.
    do 2 literal_in H. repeat_in H d4.
    do 2 literal_in H. repeat_in H tile. subst.
    exists (String sat ""), x, d1, d2, d3, d4, tile.
    split; [by rewrite (app_empty_r tile)|].
    split.
    { rewrite orb_false_r in Hsat. apply orb_prop in Hsat as [E|E];
        apply Ascii.eqb_eq in E; subst; auto. }
    specialize (Hhi 3%nat eq_refl).
    rewrite !some_of_length, <- !all_digits, <- all_alnum.
    repeat split; try done. lia.
  - intros (sat & x & d1 & d2 & d3 & d4 & tile & -> & Hsat & Hx3 & Hx
            & H1 & H2 & H3 & H4 & Ht).
    rewrite some_of_length in H1, H2, H3, H4, Ht.
    destruct H1, H2, H3, H4, Ht.
    unfold imagename_ops. simpl.
    assert (∃ c, sat = String c "" ∧ (c = "A" ∨ c = "B")%char)
      as (c & -> & Hc) by (destruct Hsat as [-> | ->]; eauto).
    do 2 literal_goal.
    eexists c, _. split; [reflexivity|].
    split; [by destruct Hc as [-> | ->]|].
    do 4 literal_goal. repeat_goal x.
    literal_goal. repeat_goal d1.
    literal_goal. repeat_goal d2.
    do 2 literal_goal. repeat_goal d3.
    do 2 literal_goal. repeat_goal d4.
    do 2 literal_goal.
    eexists tile, "". split; [by rewrite app_empty_r|].
    split; [by rewrite all_alnum|]. split; [done|]. split; done.
Qed.

Lemma occurs_iff (P Q : string → Prop) path :
  (∀ m, P m ↔ Q m) → occurs P path ↔ occurs Q path.
Proof.
  intros E. split; intros (pre & m & post & ? & ?);
    exists pre, m, post; split; try done; by apply E.
Qed.

Lemma first_match_iff (P Q : string → Prop) path pre m :
  (∀ m, P m ↔ Q m) → first_match P path pre m → first_match Q path pre m.
Proof.
  intros E (Hs & Hm & Hfirst). split; [done|]. split; [by apply E|].
  intros pre' m' post' E' Hm'. apply (Hfirst pre' m' post' E').
  by apply E.
Qed.

(** * [extract_imagename] *)

Lemma extract_imagename_occurs path :
  occurs product_name_line path →
  ∃ pre m, first_match product_name_line path pre m
           ∧ extract_imagename path imagename_pattern = inr m.
Proof.
  intros Ho. apply (occurs_iff _ _ _ language_imagename) in Ho.
  destruct (search_occurs _ _ Ho) as [m Hs].
  destruct (search_first _ _ _ imagename_pattern_deterministic Hs)
    as [pre Hf].
  exists pre, m. split.
  - by apply (first_match_iff _ _ _ _ _ language_imagename).
  - unfold extract_imagename.
    change (re.inside imagename_pattern) with imagename_ops. by rewrite Hs.
Qed.

Lemma extract_imagename_not_occurs path :
  ¬ occurs product_name_line path →
  extract_imagename path imagename_pattern = inl no_match.
Proof.
  intros Hno. unfold extract_imagename.
  change (re.inside imagename_pattern) with imagename_ops.
  rewrite search_not_occurs; [done|].
  intros Ho. apply Hno. by apply (occurs_iff _ _ _ language_imagename).
Qed.

Lemma extract_imagename_inr path m :
  extract_imagename path imagename_pattern = inr m →
  occurs product_name_line path ∧ m ≠ "".
Proof.
  unfold extract_imagename.
  change (re.inside imagename_pattern) with imagename_ops.
  destruct (re.search _ path) as [m'|] eqn:Hs; [|done]. intros [= ->].
  destruct (search_first _ _ _ imagename_pattern_deterministic Hs)
    as [pre ([post ->] & HL & _)].
  apply language_imagename in HL. split; [by exists pre, m, post|].
  destruct HL as (? & ? & ? & ? & ? & ? & ? & -> & _). done.
Qed.

(** * Loops *)

Lemma for_each_cons {X} (x : X) xs body w :
  for_each (x :: xs) body w
  = match body x w with
    | (w', inr _) => for_each xs body w'
    | (w', inl e) => (w', inl e)
    end.
Proof. reflexivity. Qed.

Lemma for_each_app {X} (xs ys : list X) body w :
  for_each (xs ++ ys) body w
  = match for_each xs body w with
    | (w', inr _) => for_each ys body w'
    | (w', inl e) => (w', inl e)
    end.
Proof.
  revert w. induction xs as [|x xs IH]; intros w; [done|].
  rewrite <- app_comm_cons, !for_each_cons.
  destruct (body x w) as [w' [e|[]]]; [done|]. apply IH.
Qed.

(** The loop ends at the first element whose body raises. *)
Lemma for_each_stops {X} (pre post : list X) x body w w1 w2 e :
  for_each pre body w = (w1, inr tt) → body x w1 = (w2, inl e) →
  for_each (pre ++ x :: post) body w = (w2, inl e).
Proof. intros Hpre Hx. by rewrite for_each_app, Hpre, for_each_cons, Hx. Qed.


(** * Paths and directories *)

Lemma join_nonempty a b : b ≠ "" → os_path.join a b ≠ "".
Proof.
  intros Hb. unfold os_path.join.
  destruct (Str.startswith b "/"); [done|].
  destruct (_ || _); intros H; apply app_eq_empty in H as [_ H]; [done|].
  by apply app_eq_empty in H as [_ H].
Qed.

Lemma rfind_ge c s : -1 ≤ Str.rfind c s.
Proof.
  induction s as [|x s IH]; simpl; [lia|].
  destruct (Str.rfind c s =? -1) eqn:E; [destruct (Ascii.eqb x c)|]; lia.
Qed.

Lemma rfind_none_head c s :
  Str.rfind c s = -1 → Str.startswith s (String c "") = false.
Proof.
  destruct s as [|x s]; [done|]. simpl.
  destruct (Str.rfind c s =? -1) eqn:E.
  - destruct (Ascii.eqb x c); [lia|done].
  - pose proof (rfind_ge c s). apply Z.eqb_neq in E. lia.
Qed.

Lemma rfind_tail c x s : Str.rfind c (String x s) = -1 → Str.rfind c s = -1.
Proof.
  simpl. pose proof (rfind_ge c s).
  destruct (Str.rfind c s =? -1) eqn:E; [by apply Z.eqb_eq in E|lia].
Qed.

Lemma rfind_app c s t :
  Str.rfind c t = -1 → Str.rfind c (s +:+ t) = Str.rfind c s.
Proof.
  intros Ht. induction s as [|x s IH]; [done|].
  rewrite app_cons. simpl. by rewrite IH.
Qed.

Lemma rfind_last c s :
  Str.rfind c (s +:+ String c "") = Z.of_nat (String.length s).
Proof.
  induction s as [|x s IH].
  - simpl. by rewrite Ascii.eqb_refl.
  - rewrite app_cons. simpl Str.rfind. rewrite IH.
    destruct (Z.of_nat (String.length s) =? -1) eqn:E.
    + apply Z.eqb_eq in E. lia.
    + simpl String.length. lia.
Qed.

(** There is no slash in a base name. *)
Lemma rfind_basename p : Str.rfind "/" (os_path.basename p) = -1.
Proof.
  unfold os_path.basename. induction p as [|x p IH]; [done|].
  simpl Str.rfind. pose proof (rfind_ge "/" p) as Hge.
  destruct (Str.rfind "/" p =? -1) eqn:E.
  - apply Z.eqb_eq in E. destruct (Ascii.eqb x "/") eqn:Ex.
    + change (Z.to_nat (0 + 1)) with 1%nat. done.
    + change (Z.to_nat (-1 + 1)) with 0%nat. simpl. by rewrite E, Ex.
  - apply Z.eqb_neq in E.
    replace (Z.to_nat (Str.rfind "/" p + 1 + 1))
      with (S (Z.to_nat (Str.rfind "/" p + 1))) by lia.
    done.
Qed.

Lemma endswith_inv s suffix :
  Str.endswith s suffix = true → ∃ t, s = t +:+ suffix.
Proof.
  unfold Str.endswith. intros [Hl H]%andb_prop.
  apply Nat.leb_le in Hl.
  remember (String.length s - String.length suffix)%nat as k eqn:Hk.
  apply startswith_inv in H as [u Hu].
  pose proof (str_length_drop k s) as Hd.
  rewrite Hu, length_app_str in Hd.
  assert (u = "") as -> by (apply length_zero_empty; lia).
  rewrite app_empty_r in Hu.
  exists (Str.take k s). by rewrite <- Hu, str_take_drop.
Qed.

(** The base name of a path that ends in a slash-free [b], after nothing
    or after a slash, is [b]. *)
Lemma basename_after_slash a b :
  Str.rfind "/" b = -1 → os_path.basename ((a +:+ "/") +:+ b) = b.
Proof.
  intros Hb. unfold os_path.basename.
  rewrite (rfind_app _ _ _ Hb), rfind_last.
  replace (Z.to_nat (Z.of_nat (String.length a) + 1))
    with (String.length (a +:+ "/"))
    by (rewrite length_app_str; simpl; lia).
  apply str_drop_app.
Qed.

Lemma basename_join a b :
  Str.rfind "/" b = -1 → os_path.basename (os_path.join a b) = b.
Proof.
  intros Hb. unfold os_path.join.
  rewrite (rfind_none_head _ _ Hb).
  destruct (bool_decide (a = "")) eqn:Ea; simpl.
  - apply bool_decide_eq_true in Ea as ->. rewrite app_empty_l.
    unfold os_path.basename. by rewrite Hb.
  - destruct (Str.endswith a "/") eqn:Es.
    + apply endswith_inv in Es as [t ->]. by apply basename_after_slash.
    + rewrite <- app_assoc_str. by apply basename_after_slash.
Qed.

Lemma chain_last seen p : seen +:+ p ∈ os_path.chain seen p.
Proof.
  revert seen. induction p as [|c p IH]; intros seen; simpl.
  - rewrite app_empty_r. apply list_elem_of_singleton. done.
  - apply elem_of_app. right.
    replace (seen +:+ String c p) with ((seen +:+ String c "") +:+ p)
      by (by rewrite app_assoc_str).
    apply IH.
Qed.

Lemma ancestors_self p : p ≠ "" → p ∈ os_path.ancestors p.
Proof.
  intros Hp. unfold os_path.ancestors. apply list_elem_of_In, filter_In.
  split.
  - apply list_elem_of_In. apply (chain_last "" p).
  - by rewrite bool_decide_false.
Qed.

Lemma makedirs_run name w :
  makedirs name w
  = (mkWorld (list_to_set (os_path.ancestors name) ∪ dirs w)
             (files w) (stdout w), inr tt).
Proof. reflexivity. Qed.

(** * The body of [download]'s loop *)

Section body.
Variables (bucket : Bucket) (target : string).

Lemma download_body_no_name key e w :
  extract_imagename key imagename_pattern = inl e →
  download_body bucket target key w = (w, inl e).
Proof. intros H. unfold download_body, bind, lift. by rewrite H. Qed.

Lemma download_body_no_transfer key imagename e w :
  extract_imagename key imagename_pattern = inr imagename →
  get_object bucket key = inl e →
  download_body bucket target key w = (after_makedirs target imagename w, inl e).
Proof.
  intros H G. unfold download_body, bind, lift, download_file.
  rewrite H. simpl. by rewrite G.
Qed.

(** The last component of the local path is the base name of the key. *)
Lemma basename_local_path imagename key :
  os_path.basename (local_path target imagename key) = os_path.basename key.
Proof. apply basename_join, rfind_basename. Qed.

Lemma download_body_no_file key imagename body w :
  extract_imagename key imagename_pattern = inr imagename →
  get_object bucket key = inr body →
  os_path.file_name (os_path.basename key) = false →
  download_body bucket target key w
  = (after_makedirs target imagename w,
     inl (rename_error bucket (local_path target imagename key))).
Proof.
  intros H G F. unfold download_body, bind, lift, download_file.
  rewrite H. simpl. rewrite G.
  change (os_path.join (os_path.join target imagename)
                       (os_path.basename key))
    with (local_path target imagename key).
  by rewrite basename_local_path, F.
Qed.

Lemma download_body_done key imagename body w :
  extract_imagename key imagename_pattern = inr imagename →
  get_object bucket key = inr body →
  os_path.file_name (os_path.basename key) = true →
  download_body bucket target key w
  = (after_download target imagename key body w, inr tt).
Proof.
  intros H G F. unfold download_body, bind, lift, download_file.
  rewrite H. simpl. rewrite G.
  change (os_path.join (os_path.join target imagename)
                       (os_path.basename key))
    with (local_path target imagename key).
  by rewrite basename_local_path, F.
Qed.

Lemma download_body_inv key w w' :
  download_body bucket target key w = (w', inr tt) →
  ∃ imagename body,
    extract_imagename key imagename_pattern = inr imagename
    ∧ get_object bucket key = inr body
    ∧ os_path.file_name (os_path.basename key) = true
    ∧ w' = after_download target imagename key body w.
Proof.
  destruct (extract_imagename key imagename_pattern) as [e|imagename]
    eqn:H.
  { by rewrite (download_body_no_name _ _ _ H). }
  destruct (get_object bucket key) as [e|body] eqn:G.
  { by rewrite (download_body_no_transfer _ _ _ _ H G). }
  destruct (os_path.file_name (os_path.basename key)) eqn:F.
  - rewrite (download_body_done _ _ _ _ H G F). intros [= <-].
    by exists imagename, body.
  - by rewrite (download_body_no_file _ _ _ _ H G F).
Qed.

Lemma after_download_dir imagename key body w :
  imagename ≠ "" →
  os_path.join target imagename ∈ dirs (after_download target imagename key body w).
Proof.
  intros Hn. simpl. apply elem_of_union_l, elem_of_list_to_set.
  by apply ancestors_self, join_nonempty.
Qed.

Lemma after_download_dirs imagename key body w :
  dirs w ⊆ dirs (after_download target imagename key body w).
Proof. simpl. set_solver. Qed.

(** What a loop that ran to its end has left on disk. *)
Lemma for_each_disk keys : ∀ w w1,
  for_each keys (download_body bucket target) w = (w1, inr tt) →
  dirs w ⊆ dirs w1
  ∧ (∀ path,
       files w1 !! path = files w !! path
       ∨ ∃ key body, key ∈ keys ∧ destination target key = Some path
           ∧ get_object bucket key = inr body
           ∧ files w1 !! path = Some body).
Proof.
  induction keys as [|k keys IH]; intros w w1.
  - intros [= <-]. split; [done|]. by left.
  - rewrite for_each_cons.
    destruct (download_body bucket target k w) as [w' [e|[]]] eqn:Hk;
      [done|].
    intros Hrest. destruct (IH _ _ Hrest) as [Hd Hf].
    apply download_body_inv in Hk as (name & body & Hn & Hg & _ & ->).
    split.
    { etrans; [apply (after_download_dirs name k body)|done]. }
    intros path. destruct (Hf path) as [E|(key & b & Hin & ? & ? & ?)].
    + destruct (decide (path = local_path target name k)) as [->|Hne].
      * right. exists k, body. rewrite E. simpl.
        rewrite lookup_insert_eq. unfold destination. rewrite Hn.
        repeat split; try done. apply list_elem_of_here.
      * left. rewrite E. simpl. by rewrite lookup_insert_ne.
    + right. exists key, b. repeat split; try done.
      by apply list_elem_of_further.
Qed.

Lemma for_each_stored keys : ∀ w w1,
  for_each keys (download_body bucket target) w = (w1, inr tt) →
  ∀ key, key ∈ keys → stored bucket target keys w1 key.
Proof.
  induction keys as [|k keys IH]; intros w w1 Hrun key Hin.
  { by apply elem_of_nil in Hin. }
  rewrite for_each_cons in Hrun.
  destruct (download_body bucket target k w) as [w' [e|[]]] eqn:Hk;
    [done|].
  apply elem_of_cons in Hin as [->|Hin].
  - destruct (for_each_disk _ _ _ Hrun) as [Hd Hf].
    apply download_body_inv in Hk as (name & body & Hn & Hg & _ & ->).
    destruct (extract_imagename_inr _ _ Hn) as [_ Hne].
    exists name, (local_path target name k). repeat split; try done.
    { apply Hd. by apply after_download_dir. }
    destruct (Hf (local_path target name k))
      as [E|(key & b & Hin & ? & ? & ?)].
    + exists k, body. rewrite E. simpl. rewrite lookup_insert_eq.
      unfold destination. rewrite Hn. repeat split; try done.
      apply list_elem_of_here.
    + exists key, b. repeat split; try done. by apply list_elem_of_further.
  - destruct (IH _ _ Hrun key Hin)
      as (name & path & ? & ? & ? & key' & b & ? & ? & ? & ?).
    exists name, path. repeat split; try done.
    exists key', b. repeat split; try done. by apply list_elem_of_further.
Qed.

End body.

(** * [download] *)

Lemma download_listing bucket product target w :
  objects_filter bucket product ≠ [] →
  download bucket product target w
  = for_each (objects_filter bucket product)
             (download_body bucket target) w.
Proof. unfold download. by destruct (objects_filter bucket product). Qed.

Lemma download_nothing bucket product target w :
  objects_filter bucket product = [] →
  download bucket product target w
  = (w, inl (FileNotFoundError
               ("No se encontraron archivos para " +:+ product))).
Proof. unfold download. by intros ->. Qed.

(** [download] ends where the body first raises, with that exception. *)
Lemma download_stops bucket product target pre key post w w1 w2 e :
  objects_filter bucket product = pre ++ key :: post →
  for_each pre (download_body bucket target) w = (w1, inr tt) →
  download_body bucket target key w1 = (w2, inl e) →
  download bucket product target w = (w2, inl e).
Proof.
  intros Hl Hpre Hk. rewrite download_listing, Hl.
  - by apply for_each_stops with (w1 := w1).
  - rewrite Hl. by destruct pre.
Qed.


(** * The loop over the rows *)

Lemma row_body_run s3 target row w :
  row_body s3 target (with_cell row) w = (row_step s3 target w row, inr tt).
Proof.
  destruct row as [idx p].
  unfold row_body, row_step, with_cell, bind, lift, try_except, print,
    printed. simpl.
  by destruct (download _ _ _ _) as [w' [e|[]]].
Qed.

Lemma for_each_rows s3 target rows : ∀ w,
  for_each (with_cell <$> rows) (row_body s3 target) w
  = (foldl (row_step s3 target) w rows, inr tt).
Proof.
  induction rows as [|row rows IH]; intros w; [done|].
  rewrite fmap_cons, for_each_cons, row_body_run. apply IH.
Qed.

Lemma enumerate_cells paths : ∀ start,
  enumerate (Some <$> paths) start = with_cell <$> enumerate paths start.
Proof.
  induction paths as [|p paths IH]; intros start; [done|].
  simpl. by rewrite IH.
Qed.

Lemma slice_from_fmap {A B} (f : A → B) l start :
  slice_from (f <$> l) start = f <$> slice_from l start.
Proof.
  unfold slice_from. rewrite length_fmap.
  destruct (start <? 0); by rewrite fmap_drop.
Qed.

Lemma download_copernicus_images_run s3 df start_row target paths w :
  getitem df "S3Path" = inr (Some <$> paths) →
  download_copernicus_images s3 df start_row target w
  = (foldl (row_step s3 target) w
           (enumerate (slice_from paths start_row) start_row), inr tt).
Proof.
  intros Hcol. unfold download_copernicus_images, bind, lift.
  rewrite Hcol, slice_from_fmap, enumerate_cells. apply for_each_rows.
Qed.

(** The batch over a column whose cells from the start row on are
    strings. *)
Lemma download_copernicus_images_cells
    s3 df start_row target cells paths w :
  getitem df "S3Path" = inr cells →
  slice_from cells start_row = Some <$> paths →
  download_copernicus_images s3 df start_row target w
  = (foldl (row_step s3 target) w (enumerate paths start_row), inr tt).
Proof.
  intros Hcol Hcells. unfold download_copernicus_images, bind, lift.
  rewrite Hcol, Hcells, enumerate_cells. apply for_each_rows.
Qed.

Lemma row_step_caught s3 target w idx p w' e :
  download (s3 "eodata") (remove_prefix p "/eodata/") target
           (printed (progress_line (remove_prefix p "/eodata/") idx) w)
  = (w', inl e) →
  row_step s3 target w (idx, p)
  = printed (error_line (remove_prefix p "/eodata/") e) w'.
Proof. unfold row_step. simpl. by intros ->. Qed.

Lemma positional_app {A} (pre : list A) x post :
  positional (pre ++ x :: post) (Z.of_nat (length pre)) = Some x.
Proof.
  unfold positional.
  destruct (Z.of_nat (length pre) <? 0) eqn:E; [apply Z.ltb_lt in E; lia|].
  rewrite Nat2Z.id. by rewrite list_lookup_middle.
Qed.

Lemma rows_by_position_suffix {A} (suffix : list A) : ∀ pre,
  omap (λ i, pair i <$> positional (pre ++ suffix) i)
       (seqZ (Z.of_nat (length pre)) (Z.of_nat (length suffix)))
  = enumerate suffix (Z.of_nat (length pre)).
Proof.
  induction suffix as [|x suffix IH]; intros pre; [done|].
  rewrite seqZ_cons by (rewrite length_cons; lia). simpl omap.
  rewrite positional_app. simpl fmap. cbn [enumerate]. f_equal.
  specialize (IH (pre ++ [x])).
  rewrite <- app_assoc, length_app in IH. simpl in IH.
  replace (Z.succ (Z.of_nat (length pre)))
    with (Z.of_nat (length pre + 1)) by lia.
  replace (Z.pred (Z.of_nat (S (length suffix))))
    with (Z.of_nat (length suffix)) by lia.
  change (list_omap Z (Z * A)%type) with (@omap list _ Z (Z * A)%type).
  rewrite IH. f_equal. lia.
Qed.

Lemma rows_by_position_enumerate {A} (paths : list A) start_row :
  0 ≤ start_row →
  rows_by_position paths start_row
  = enumerate (slice_from paths start_row) start_row.
Proof.
  intros Hs. unfold rows_by_position, slice_from.
  destruct (start_row <? 0) eqn:E; [apply Z.ltb_lt in E; lia|].
  destruct (decide (Z.to_nat start_row ≤ length paths)%nat) as [Hle|Hgt].
  - pose proof (rows_by_position_suffix (drop (Z.to_nat start_row) paths)
                  (take (Z.to_nat start_row) paths)) as H.
    rewrite take_drop, length_take, length_drop in H.
    replace (Z.of_nat (Z.to_nat start_row `min` length paths))
      with start_row in H by lia.
    replace (Z.of_nat (length paths - Z.to_nat start_row))
      with (Z.of_nat (length paths) - start_row) in H by lia.
    done.
  - rewrite drop_ge by lia. simpl.
    unfold seqZ. by replace (Z.to_nat (Z.of_nat (length paths) - start_row))
      with 0%nat by lia.
Qed.

(** * The query string *)

Lemma query_url_join start_date end_date polygon collection cloud_cover
    product_type srid :
  query_url start_date end_date polygon collection cloud_cover product_type
            srid
  = catalogue +:+ join_and (filter_clauses start_date end_date polygon
                              collection cloud_cover product_type srid).
Proof.
  unfold query_url, filter_clauses, catalogue, intersects_clause,
    start_after_clause, start_before_clause, collection_clause,
    cloud_cover_clause, product_type_clause.
  destruct cloud_cover, product_type; simpl; rewrite ?app_assoc_str;
    reflexivity.
Qed.

(** * The claims *)

Lemma search_None_not_occurs path :
  re.search imagename_ops path = None →
  ¬ occurs product_name_line path.
Proof.
  intros Hs Ho. apply (occurs_iff _ _ _ language_imagename) in Ho.
  destruct (search_occurs _ _ Ho) as [m Hm]. congruence.
Qed.

(** C1, as the code has it, for a path whose characters are code points
    below 256: where the naming pattern (S2A or S2B, [_MSI] and three
    characters none of which is a line feed, [_] digits [T] digits, [_N]
    digits, [_R] digits, [_T] and a tile code of the letters [a-z], [A-Z]
    and digits, a digit being one of [0] to [9]) occurs in the path,
    [extract_imagename] returns its first match; where it does not occur
    it raises the ValueError, and a [download] whose loop has come to such
    a key ends at once with that error. *)
Theorem extract_imagename_first_match_or_ValueError path :
  (occurs product_name_line path →
     ∃ pre m, first_match product_name_line path pre m
              ∧ extract_imagename path imagename_pattern = inr m) ∧
  (¬ occurs product_name_line path →
     extract_imagename path imagename_pattern = inl no_match
     ∧ ∀ bucket product target pre post w w1,
         objects_filter bucket product = pre ++ path :: post →
         for_each pre (download_body bucket target) w = (w1, inr tt) →
         download bucket product target w = (w1, inl no_match)).
Proof.
  split; [apply extract_imagename_occurs|].
  intros Hno. pose proof (extract_imagename_not_occurs _ Hno) as He.
  split; [done|]. intros bucket product target pre post w w1 Hl Hpre.
  apply (download_stops _ _ _ _ _ _ _ _ _ _ Hl Hpre).
  by apply download_body_no_name.
Qed.

Lemma extract_imagename_first_match_or_ValueError_witness :
  (∃ pre, first_match product_name_line sample_path pre
            "S2A_MSIL1C_20240430T000000_N0500_R001_T16QCD")
  ∧ extract_imagename sample_path imagename_pattern
    = inr "S2A_MSIL1C_20240430T000000_N0500_R001_T16QCD"
  ∧ extract_imagename "foo/bar.jp2" imagename_pattern = inl no_match
  ∧ (download sample_bucket "mixed/" "out" empty_world).2 = inl no_match.
Proof.
  assert (occurs product_name_line sample_path) as Ho.
  { exists "Sentinel-2/", "S2A_MSIL1C_20240430T000000_N0500_R001_T16QCD",
      ".SAFE/B01.jp2".
    split; [reflexivity|].
    exists "A", "L1C", "20240430", "000000", "0500", "001", "16QCD".
    repeat split; try reflexivity; auto; discriminate. }
  destruct (proj1 (extract_imagename_first_match_or_ValueError sample_path)
              Ho) as (pre & m & Hf & He).
  assert (m = "S2A_MSIL1C_20240430T000000_N0500_R001_T16QCD") as ->.
  { vm_compute in He. by injection He. }
  split; [by exists pre|]. split; [done|].
  split.
  - apply (proj2 (extract_imagename_first_match_or_ValueError "foo/bar.jp2")).
    apply search_None_not_occurs. vm_compute. reflexivity.
  - assert (¬ occurs product_name_line "mixed/notes.txt") as Hno.
    { apply search_None_not_occurs. vm_compute. reflexivity. }
    rewrite (proj2 (proj2 (extract_imagename_first_match_or_ValueError
                             "mixed/notes.txt") Hno)
               sample_bucket "mixed/" "out" [mixed_name +:+ "/B01.jp2"]
               [mixed_name +:+ "/B02.jp2"] empty_world
               (for_each [mixed_name +:+ "/B01.jp2"]
                         (download_body sample_bucket "out")
                         empty_world).1).
    + reflexivity.
    + vm_compute. reflexivity.
    + vm_compute. reflexivity.
Defined.

(** C1 as stated fails: with three arbitrary characters after [_MSI] the
    pattern occurs in [newline_path], and [extract_imagename] raises. *)
Lemma extract_imagename_newline_in_name :
  occurs product_name_any3 newline_path
  ∧ extract_imagename newline_path imagename_pattern = inl no_match.
Proof.
  split; [|vm_compute; reflexivity].
  exists "", newline_path, "". split; [reflexivity|].
  exists "A", (String "010" "1C"), "20240430", "000000", "0500", "001",
    "16QCD".
  repeat split; try reflexivity; auto; discriminate.
Qed.

(** C3: the query string is the catalogue address followed by the clauses
    joined with [and]: intersection with the polygon under the SRID, start
    [gt] the start date, start [lt] the end date, collection name [eq];
    a cloud cover adds exactly the [cloudCover ... lt] clause after these
    four, a product type adds exactly the [productType ... eq] clause at
    the end, each whether or not the other is there. *)
Theorem query_url_clauses start_date end_date polygon collection cloud_cover
    product_type srid :
  query_url start_date end_date polygon collection cloud_cover product_type
            srid
  = catalogue +:+ join_and (filter_clauses start_date end_date polygon
                              collection cloud_cover product_type srid)
  ∧ filter_clauses start_date end_date polygon collection None None srid
    = [intersects_clause srid polygon; start_after_clause start_date;
       start_before_clause end_date; collection_clause collection]
  ∧ (∀ c, filter_clauses start_date end_date polygon collection (Some c)
            product_type srid
          = take 4 (filter_clauses start_date end_date polygon collection
                      None product_type srid)
            ++ [cloud_cover_clause c]
            ++ drop 4 (filter_clauses start_date end_date polygon collection
                         None product_type srid))
  ∧ (∀ t, filter_clauses start_date end_date polygon collection cloud_cover
            (Some t) srid
          = filter_clauses start_date end_date polygon collection
              cloud_cover None srid
            ++ [product_type_clause t]).
Proof.
  split; [apply query_url_join|]. split; [done|]. split.
  - intros c. by destruct product_type.
  - intros t. by destruct cloud_cover.
Qed.

(** C4, as the code has it: in a table that has an [S3Path] column whose
    cells in the slice [[start_row:]] are all strings, an exception raised
    by [download] for a row of the slice is caught; the error line with the
    stripped path and the error is printed, the remaining rows are
    processed from there, and the batch ends normally. *)
Theorem download_copernicus_images_continues_after_failure
    s3 df start_row target cells paths w before idx p after w' e :
  getitem df "S3Path" = inr cells →
  slice_from cells start_row = Some <$> paths →
  enumerate paths start_row = before ++ (idx, p) :: after →
  download (s3 "eodata") (remove_prefix p "/eodata/") target
           (printed (progress_line (remove_prefix p "/eodata/") idx)
                    (foldl (row_step s3 target) w before))
  = (w', inl e) →
  download_copernicus_images s3 df start_row target w
  = (foldl (row_step s3 target)
           (printed (error_line (remove_prefix p "/eodata/") e) w') after,
     inr tt).
Proof.
  intros Hcol Hcells Hrows Hrow.
  rewrite (download_copernicus_images_cells _ _ _ _ _ _ _ Hcol Hcells).
  rewrite Hrows, foldl_app. simpl foldl.
  by rewrite (row_step_caught _ _ _ _ _ _ _ Hrow).
Qed.

(** C5: an empty listing makes [download] raise FileNotFoundError and
    leaves the world as it was. *)
Theorem download_empty_listing bucket product target w :
  objects_filter bucket product = [] →
  download bucket product target w
  = (w, inl (FileNotFoundError
               ("No se encontraron archivos para " +:+ product))).
Proof. apply download_nothing. Qed.

Lemma download_empty_listing_witness :
  download sample_bucket "Sentinel-1/" "out" empty_world
  = (empty_world,
     inl (FileNotFoundError "No se encontraron archivos para Sentinel-1/")).
Proof. apply (download_empty_listing sample_bucket). reflexivity. Defined.



(** C8, as the code has it: for a start row that is not negative and a
    table that has an [S3Path] column holding a string in every row from
    the position [start_row] on, the rows processed are those at the
    positions [start_row] up to the last, in table order, each reported
    with its position in the whole table. *)
Theorem download_copernicus_images_rows_from_start
    s3 df start_row target cells rows w :
  0 ≤ start_row →
  getitem df "S3Path" = inr cells →
  rows_by_position cells start_row = with_cell <$> rows →
  download_copernicus_images s3 df start_row target w
  = (foldl (row_step s3 target) w rows, inr tt).
Proof.
  intros Hs Hcol Hrows. rewrite rows_by_position_enumerate in Hrows by done.
  unfold download_copernicus_images, bind, lift.
  rewrite Hcol, Hrows. apply for_each_rows.
Qed.

(** C9: an answer whose [value] array is empty gives the empty table; the
    function prints that nothing was found and does not raise. *)
Theorem get_copernicus_image_metadata_empty_value
    requests_get_json start_date end_date polygon collection cloud_cover
    product_type srid json_response w :
  requests_get_json
    (query_url start_date end_date polygon collection cloud_cover
               product_type srid) = inr json_response →
  json_response !! "value" = Some [] →
  get_copernicus_image_metadata requests_get_json start_date end_date
    polygon collection cloud_cover product_type srid w
  = (printed nothing_found w, inr (mkDataFrame [] []))
  ∧ df_empty (mkDataFrame [] []) = true.
Proof.
  intros Hget Hvalue. split; [|done].
  unfold get_copernicus_image_metadata, bind, lift. by rewrite Hget, Hvalue.
Qed.

(** C10: when the loop of [download] comes to a key in which the naming
    pattern does not occur, [download] ends with the ValueError in the
    world the earlier objects left: each of them is on disk, and nothing
    has been made or written for the failing one. *)
Theorem download_abort_keeps_earlier_files
    bucket product target pre key post w w1 :
  objects_filter bucket product = pre ++ key :: post →
  for_each pre (download_body bucket target) w = (w1, inr tt) →
  ¬ occurs product_name_line key →
  download bucket product target w = (w1, inl no_match)
  ∧ ∀ earlier, earlier ∈ pre → stored bucket target pre w1 earlier.
Proof.
  intros Hl Hpre Hno. split.
  - apply (download_stops _ _ _ _ _ _ _ _ _ _ Hl Hpre).
    by apply download_body_no_name, extract_imagename_not_occurs.
  - by apply (for_each_stored _ _ _ _ _ Hpre).
Qed.

(** * The claims on the sample store *)

Lemma sample_column :
  getitem sample_table "S3Path" = inr (Some <$> sample_paths).
Proof. vm_compute. reflexivity. Qed.

(** Row 2 of 3 raises (its second band cannot be fetched); rows 1 and 3
    are on disk, the third band of row 2 is not. *)
Lemma download_copernicus_images_continues_after_failure_witness :
  (download_copernicus_images sample_s3 sample_table 0 "out" empty_world).2
  = inr tt
  ∧ files (download_copernicus_images sample_s3 sample_table 0 "out"
             empty_world).1
      !! "out/S2B_MSIL1C_20240430T153609_N0510_R110_T17QKA/file1.jp2"
    = Some (String.list_byte_of_string product_b)
  ∧ files (download_copernicus_images sample_s3 sample_table 0 "out"
             empty_world).1
      !! "out/S2A_MSIL1C_20240501T000000_N0500_R002_T16QCD/B01.jp2"
    = Some (String.list_byte_of_string (product_c +:+ "/B01.jp2"))
  ∧ files (download_copernicus_images sample_s3 sample_table 0 "out"
             empty_world).1
      !! "out/S2A_MSIL1C_20240430T000000_N0500_R001_T16QCD/B03.jp2"
    = None
  ∧ stdout (download_copernicus_images sample_s3 sample_table 0 "out"
              empty_world).1 !! 2%nat
    = Some (error_line product_a (ClientError "An error occurred (404)")).
Proof.
  rewrite (download_copernicus_images_continues_after_failure
             sample_s3 sample_table 0 "out" (Some <$> sample_paths)
             sample_paths empty_world
             [(0, "/eodata/" +:+ product_b)] 1 ("/eodata/" +:+ product_a)
             [(2, "/eodata/" +:+ product_c)]
             (download sample_bucket product_a "out"
                (printed (progress_line product_a 1)
                   (row_step sample_s3 "out" empty_world
                      (0, "/eodata/" +:+ product_b)))).1
             (ClientError "An error occurred (404)")).
  - repeat split; vm_compute; reflexivity.
  - apply sample_column.
  - reflexivity.
  - vm_compute. reflexivity.
  - vm_compute. reflexivity.
Defined.

(** C4 as stated fails for a table with a missing cell: the second of the
    three rows has no [S3Path], the AttributeError of [remove_prefix] is
    raised outside the [try] and ends the batch, and the third row is not
    processed. *)
Lemma batch_aborted_by_row_without_path :
  getitem gap_table "S3Path"
  = inr [Some ("/eodata/" +:+ product_b); None;
         Some ("/eodata/" +:+ product_c)]
  ∧ download_copernicus_images sample_s3 gap_table 0 "out" empty_world
    = (row_step sample_s3 "out" empty_world (0, "/eodata/" +:+ product_b),
       inl no_startswith)
  ∧ files (download_copernicus_images sample_s3 gap_table 0 "out"
             empty_world).1
      !! "out/S2A_MSIL1C_20240501T000000_N0500_R002_T16QCD/B01.jp2"
    = None
  ∧ download sample_bucket product_c "out" empty_world
    = (after_download "out" "S2A_MSIL1C_20240501T000000_N0500_R002_T16QCD"
         (product_c +:+ "/B01.jp2")
         (String.list_byte_of_string (product_c +:+ "/B01.jp2"))
         empty_world, inr tt).
Proof. repeat split; vm_compute; reflexivity. Qed.




(** From row 1 of the three rows of [sample_table], and from row 2 of
    [gap_table], whose row 1 has no [S3Path]. *)
Lemma download_copernicus_images_rows_from_start_witness :
  download_copernicus_images sample_s3 sample_table 1 "out" empty_world
  = (foldl (row_step sample_s3 "out") empty_world
           [(1, "/eodata/" +:+ product_a); (2, "/eodata/" +:+ product_c)],
     inr tt)
  ∧ download_copernicus_images sample_s3 gap_table 2 "out" empty_world
    = (row_step sample_s3 "out" empty_world (2, "/eodata/" +:+ product_c),
       inr tt).
Proof.
  split.
  - apply (download_copernicus_images_rows_from_start
             sample_s3 sample_table 1 "out" (Some <$> sample_paths)
             [(1, "/eodata/" +:+ product_a); (2, "/eodata/" +:+ product_c)]
             empty_world);
      [lia | apply sample_column | vm_compute; reflexivity].
  - apply (download_copernicus_images_rows_from_start
             sample_s3 gap_table 2 "out"
             [Some ("/eodata/" +:+ product_b); None;
              Some ("/eodata/" +:+ product_c)]
             [(2, "/eodata/" +:+ product_c)] empty_world);
      [lia | vm_compute; reflexivity | vm_compute; reflexivity].
Defined.

(** C8 as stated fails for a negative start row: with [-5] on the three
    rows every row is processed and the first one is reported as row [-5],
    where the rows at the positions from [-5] on are the rows 0, 1 and 2. *)
Lemma download_copernicus_images_negative_start :
  stdout (download_copernicus_images sample_s3 sample_table (-5) "out"
            empty_world).1 !! 0%nat
  = Some (progress_line product_b (-5))
  ∧ rows_by_position sample_paths (-5)
    = [(0, "/eodata/" +:+ product_b); (1, "/eodata/" +:+ product_a);
       (2, "/eodata/" +:+ product_c)]
  ∧ download_copernicus_images sample_s3 sample_table (-5) "out" empty_world
    ≠ (foldl (row_step sample_s3 "out") empty_world
             (rows_by_position sample_paths (-5)), inr tt).
Proof.
  split; [vm_compute; reflexivity|]. split; [vm_compute; reflexivity|].
  intros H. apply (f_equal (λ r, stdout r.1 !! 0%nat)) in H.
  vm_compute in H. discriminate H.
Qed.

Lemma get_copernicus_image_metadata_empty_value_witness :
  get_copernicus_image_metadata (λ _, inr {["value" := []]})
    "2024-04-30T00:00:00.000Z" "2024-05-01T00:00:00.000Z"
    "-66.9 21.6, -66.9 20.7, -66.0 20.8, -66.9 21.6" "SENTINEL-2"
    None (Some "S2MSI1C") "4326" empty_world
  = (printed nothing_found empty_world, inr (mkDataFrame [] [])).
Proof.
  apply (get_copernicus_image_metadata_empty_value
           (λ _, inr {["value" := []]}) _ _ _ _ _ _ _ {["value" := []]}).
  - reflexivity.
  - vm_compute. reflexivity.
Defined.

Lemma download_abort_keeps_earlier_files_witness :
  (download sample_bucket "mixed/" "out" empty_world).2 = inl no_match
  ∧ files (download sample_bucket "mixed/" "out" empty_world).1
      !! "out/S2A_MSIL2A_20240430T000000_N0500_R001_T16QCD/B01.jp2"
    = Some (String.list_byte_of_string (mixed_name +:+ "/B01.jp2"))
  ∧ files (download sample_bucket "mixed/" "out" empty_world).1
      !! "out/S2A_MSIL2A_20240430T000000_N0500_R001_T16QCD/B02.jp2"
    = None
  ∧ stored sample_bucket "out" [mixed_name +:+ "/B01.jp2"]
      (download sample_bucket "mixed/" "out" empty_world).1
      (mixed_name +:+ "/B01.jp2").
Proof.
  destruct (download_abort_keeps_earlier_files
              sample_bucket "mixed/" "out" [mixed_name +:+ "/B01.jp2"]
              "mixed/notes.txt" [mixed_name +:+ "/B02.jp2"] empty_world
              (for_each [mixed_name +:+ "/B01.jp2"]
                        (download_body sample_bucket "out") empty_world).1)
    as [Hd Hs].
  - vm_compute. reflexivity.
  - vm_compute. reflexivity.
  - apply search_None_not_occurs. vm_compute. reflexivity.
  - rewrite Hd. split; [reflexivity|]. split; [vm_compute; reflexivity|].
    split; [vm_compute; reflexivity|].
    apply Hs, list_elem_of_here.
Defined.

(** * More on [remove_prefix] and [extract_imagename] *)

(** X1: [remove_prefix], for any prefix: the result is the string itself, or
    the string without one leading copy of the prefix; nothing else. *)
Theorem remove_prefix_cases s p :
  (Str.startswith s p = true ∧ s = p +:+ remove_prefix s p)
  ∨ (Str.startswith s p = false ∧ remove_prefix s p = s).
Proof.
  destruct (Str.startswith s p) eqn:H; [left|right].
  - split; [done|]. apply startswith_inv in H as [t ->].
    by rewrite remove_prefix_present.
  - split; [done|]. by apply remove_prefix_absent.
Qed.

Lemma language_search ops m :
  deterministic ops = true → language ops m → re.search ops m = Some m.
Proof.
  intros Hd HL.
  destruct (sre_match_longest ops Hd m "" HL) as (n & Hs & Hn).
  rewrite app_empty_r in Hs.
  destruct (sre_match_sound _ _ _ Hs) as [Hle _].
  assert (n = String.length m) as -> by lia.
  rewrite (search_here _ _ _ Hs).
  rewrite <- (app_empty_r m) at 2. by rewrite str_take_app.
Qed.

Lemma extract_imagename_name path m :
  extract_imagename path imagename_pattern = inr m →
  product_name_line m ∧ ∃ pre post, path = pre +:+ m +:+ post.
Proof.
  unfold extract_imagename.
  change (re.inside imagename_pattern) with imagename_ops.
  destruct (re.search _ path) as [m'|] eqn:Hs; [|done]. intros [= ->].
  destruct (search_first _ _ _ imagename_pattern_deterministic Hs)
    as [pre ([post ->] & HL & _)].
  apply language_imagename in HL. split; [done|]. by exists pre, post.
Qed.

(** X2: the image name is a fixed point: a product name is its own image
    name, so extracting from an extracted name gives it back. *)
Theorem extract_imagename_fixed_point :
  (∀ m, product_name_line m →
        extract_imagename m imagename_pattern = inr m) ∧
  (∀ path m, extract_imagename path imagename_pattern = inr m →
             extract_imagename m imagename_pattern = inr m).
Proof.
  assert (∀ m, product_name_line m →
               extract_imagename m imagename_pattern = inr m) as H.
  { intros m Hm. apply language_imagename in Hm. unfold extract_imagename.
    change (re.inside imagename_pattern) with imagename_ops.
    by rewrite (language_search _ _ imagename_pattern_deterministic Hm). }
  split; [done|]. intros path m He. apply H.
  by destruct (extract_imagename_name _ _ He).
Qed.

Lemma some_of_nonempty class s : some_of class s → (1 ≤ String.length s)%nat.
Proof. intros H. by apply some_of_length in H as [? _]. Qed.

Lemma product_name_length three m :
  product_name three m → (shortest_name ≤ String.length m)%nat.
Proof.
  intros (sat & x & d1 & d2 & d3 & d4 & tile & -> & Hsat & Hx & _
          & H1 & H2 & H3 & H4 & Ht).
  apply some_of_nonempty in H1, H2, H3, H4, Ht.
  rewrite !length_app_str. unfold shortest_name.
  destruct Hsat as [-> | ->]; simpl; lia.
Qed.

(** X3: what [extract_imagename] returns is a piece of the path of at least
    23 characters; a shorter path, the empty one included, raises. *)
Theorem extract_imagename_length path :
  (∀ m, extract_imagename path imagename_pattern = inr m →
        (shortest_name ≤ String.length m ≤ String.length path)%nat) ∧
  ((String.length path < shortest_name)%nat →
   extract_imagename path imagename_pattern = inl no_match).
Proof.
  assert (∀ m, extract_imagename path imagename_pattern = inr m →
            (shortest_name ≤ String.length m ≤ String.length path)%nat)
    as H.
  { intros m He.
    destruct (extract_imagename_name _ _ He) as (Hm & pre & post & ->).
    split; [by apply (product_name_length not_newline)|].
    rewrite !length_app_str. lia. }
  split; [done|]. intros Hshort.
  destruct (extract_imagename path imagename_pattern) as [e|m] eqn:He.
  - unfold extract_imagename in He.
    change (re.inside imagename_pattern) with imagename_ops in He.
    by destruct (re.search imagename_ops path).
  - specialize (H m eq_refl). lia.
Qed.

Lemma extract_imagename_length_witness :
  extract_imagename "" imagename_pattern = inl no_match
  ∧ (23 ≤ String.length "S2A_MSIL1C_20240430T000000_N0500_R001_T16QCD"
        ≤ String.length sample_path)%nat.
Proof.
  split.
  - apply (proj2 (extract_imagename_length "")). vm_compute. lia.
  - apply (proj1 (extract_imagename_length sample_path)).
    vm_compute. reflexivity.
Defined.

Lemma search_skip q : ∀ t,
  Str.all not_S q = true →
  re.search imagename_ops (q +:+ t) = re.search imagename_ops t.
Proof.
  induction q as [|c q IH]; intros t H; [done|].
  simpl in H. apply andb_prop in H as [Hc H].
  rewrite app_cons.
  change (re.search imagename_ops (String c (q +:+ t)))
    with (match re.sre_match imagename_ops (String c (q +:+ t)) with
          | Some n => Some (Str.take n (String c (q +:+ t)))
          | None => re.search imagename_ops (q +:+ t)
          end).
  assert (re.sre_match imagename_ops (String c (q +:+ t)) = None)
    as ->.
  { unfold imagename_ops. simpl. unfold not_S in Hc.
    by destruct (Ascii.eqb c "S"). }
  by apply IH.
Qed.

(** X4: a name starts with [S]: text without an [S] in front of a path does
    not change what is extracted, so the path of the table and the key
    stripped of [/eodata/] give the same image name or both raise. *)
Theorem extract_imagename_after_prefix :
  (∀ q t, Str.all not_S q = true →
          extract_imagename (q +:+ t) imagename_pattern
          = extract_imagename t imagename_pattern) ∧
  (∀ s, extract_imagename (remove_prefix s "/eodata/") imagename_pattern
        = extract_imagename s imagename_pattern).
Proof.
  assert (∀ q t, Str.all not_S q = true →
            extract_imagename (q +:+ t) imagename_pattern
            = extract_imagename t imagename_pattern) as H.
  { intros q t Hq. unfold extract_imagename.
    change (re.inside imagename_pattern) with imagename_ops.
    by rewrite search_skip. }
  split; [done|]. intros s.
  destruct (Str.startswith s "/eodata/") eqn:Hs.
  - apply startswith_inv in Hs as [t ->]. rewrite remove_prefix_present.
    symmetry. by apply H.
  - by rewrite remove_prefix_absent.
Qed.

Lemma extract_imagename_after_prefix_witness :
  extract_imagename ("/eodata/" +:+ sample_path) imagename_pattern
  = extract_imagename sample_path imagename_pattern.
Proof.
  apply (proj1 extract_imagename_after_prefix "/eodata/" sample_path).
  reflexivity.
Defined.

Lemma extract_imagename_fixed_point_witness :
  extract_imagename "S2A_MSIL1C_20240430T000000_N0500_R001_T16QCD"
    imagename_pattern
  = inr "S2A_MSIL1C_20240430T000000_N0500_R001_T16QCD".
Proof.
  apply (proj2 extract_imagename_fixed_point sample_path).
  vm_compute. reflexivity.
Defined.

(** * [extract_imagename] with a pattern of the caller *)

(** X5: for a pattern of the caller that compiles and is one group around
    literals, classes, the dot and greedy repeats of them: what
    [extract_imagename] returns is a piece of the path that the inside of
    the group matches, and no piece that starts earlier matches; it
    returns whenever some piece matches and raises the ValueError
    otherwise. *)
Theorem extract_imagename_any_pattern path ops :
  re.compiles (re.GROUP1 ops) = true →
  (∀ m, extract_imagename path (re.GROUP1 ops) = inr m →
     ∃ pre post, path = pre +:+ m +:+ post ∧ language ops m
       ∧ ∀ pre' m' post', path = pre' +:+ m' +:+ post' →
           language ops m' →
           (String.length pre ≤ String.length pre')%nat)
  ∧ (occurs (language ops) path →
     ∃ m, extract_imagename path (re.GROUP1 ops) = inr m)
  ∧ (¬ occurs (language ops) path →
     extract_imagename path (re.GROUP1 ops) = inl no_match).
Proof.
  intros _. unfold extract_imagename. simpl re.inside. split; [|split].
  - intros m He.
    destruct (re.search ops path) as [m'|] eqn:Hs; [|done].
    injection He as ->.
    apply search_Some in Hs as (pre & post & -> & Hm & Hfirst).
    exists pre, post. split; [done|].
    destruct (sre_match_sound _ _ _ Hm) as [_ HL].
    rewrite str_take_app in HL. split; [done|].
    intros pre' m' post' E HL'.
    destruct (decide (String.length pre' < String.length pre)%nat)
      as [Hlt|]; [|lia].
    pose proof (Hfirst _ _ E Hlt) as Hn.
    destruct (sre_match_complete ops m' post' HL') as [n Hs].
    congruence.
  - intros Ho. destruct (search_occurs _ _ Ho) as [m ->]. eauto.
  - intros Hno. by rewrite search_not_occurs.
Qed.

Lemma extract_imagename_any_pattern_witness :
  (∃ m, extract_imagename "SAR/S1A_20240430.zip" sentinel1_pattern = inr m)
  ∧ extract_imagename "SAR/S1A_20240430.zip" sentinel1_pattern
    = inr "S1A_20240430".
Proof.
  split; [|vm_compute; reflexivity].
  apply (proj1 (proj2 (extract_imagename_any_pattern
                         "SAR/S1A_20240430.zip" sentinel1_ops eq_refl))).
  exists "SAR/", "S1A_20240430", ".zip". split; [reflexivity|].
  unfold sentinel1_ops. simpl.
  eexists _, _. split; [reflexivity|]. split; [reflexivity|].
  eexists _, _. split; [reflexivity|]. split; [reflexivity|].
  eexists _, _. split; [reflexivity|]. split; [reflexivity|].
  eexists _, _. split; [reflexivity|]. split; [reflexivity|].
  exists "20240430", "". repeat split; try done; simpl; lia.
Defined.

(** * Effects *)

Lemma world_eq w1 w2 :
  dirs w1 = dirs w2 → files w1 = files w2 → stdout w1 = stdout w2 →
  w1 = w2.
Proof. destruct w1, w2. simpl. by intros -> -> ->. Qed.

Lemma write_all_app m ws1 ws2 :
  write_all m (ws1 ++ ws2) = write_all (write_all m ws1) ws2.
Proof. apply foldl_app. Qed.

Lemma write_all_lookup ws : ∀ m path,
  write_all m ws !! path
  = match last_write ws path with
    | Some b => Some b
    | None => m !! path
    end.
Proof.
  induction ws as [|[p b] ws IH]; intros m path; [done|].
  change (write_all m ((p, b) :: ws)) with (write_all (<[p := b]> m) ws).
  rewrite IH. simpl. destruct (last_write ws path); [done|].
  case_bool_decide as E.
  - subst. apply lookup_insert_eq.
  - by apply lookup_insert_ne.
Qed.

Lemma write_all_twice m ws : write_all (write_all m ws) ws = write_all m ws.
Proof.
  apply map_eq. intros path. rewrite !write_all_lookup.
  by destruct (last_write ws path).
Qed.

Lemma apply_no_effect w : apply_effect no_effect w = w.
Proof.
  apply world_eq; simpl.
  - apply (left_id_L ∅ (∪)).
  - done.
  - apply app_nil_r.
Qed.

Lemma apply_effect_app E1 E2 w :
  apply_effect (effect_app E1 E2) w = apply_effect E2 (apply_effect E1 w).
Proof.
  apply world_eq; simpl.
  - rewrite list_to_set_app_L.
    by rewrite (comm_L (∪) (list_to_set (made E1))), (assoc_L (∪)).
  - apply write_all_app.
  - apply app_assoc.
Qed.

(** Doing the same thing again leaves the disk alone. *)
Lemma apply_effect_again E w :
  dirs (apply_effect E (apply_effect E w)) = dirs (apply_effect E w)
  ∧ files (apply_effect E (apply_effect E w)) = files (apply_effect E w).
Proof.
  split; simpl; [|apply write_all_twice].
  by rewrite (assoc_L (∪)), (idemp_L (∪)).
Qed.

Section acts.
Context {A B : Type}.

Lemma acts_ret (a : A) : acts_by (ret a) no_effect (inr a).
Proof. intros w. unfold ret. by rewrite apply_no_effect. Qed.

Lemma acts_lift (r : exn + A) : acts_by (lift r) no_effect r.
Proof. intros w. unfold lift. by rewrite apply_no_effect. Qed.

Lemma acts_bind_ok (c : M A) (k : A → M B) E1 a E2 r :
  acts_by c E1 (inr a) → acts_by (k a) E2 r →
  acts_by (bind c k) (effect_app E1 E2) r.
Proof.
  intros H1 H2 w. unfold bind. by rewrite H1, H2, apply_effect_app.
Qed.

Lemma acts_bind_raise (c : M A) (k : A → M B) E1 e :
  acts_by c E1 (inl e) → acts_by (bind c k) E1 (inl e).
Proof. intros H1 w. unfold bind. by rewrite H1. Qed.



End acts.


Lemma acts_makedirs name :
  acts_by (makedirs name) (mkEffect (os_path.ancestors name) [] [])
          (inr tt).
Proof.
  intros w. unfold makedirs. f_equal.
  apply world_eq; simpl; [done|done|by rewrite app_nil_r].
Qed.

Lemma acts_download_file bucket key filename :
  ∃ E r, acts_by (download_file bucket key filename) E r
         ∧ printed_lines E = [].
Proof.
  destruct (get_object bucket key) as [e|body] eqn:G.
  - exists no_effect, (inl e). split; [|done]. intros w.
    unfold download_file. by rewrite G, apply_no_effect.
  - destruct (os_path.file_name (os_path.basename filename)) eqn:F.
    + exists (mkEffect [] [(filename, body)] []), (inr tt). split; [|done].
      intros w. unfold download_file. rewrite G, F. f_equal.
      apply world_eq; simpl;
        [by rewrite (left_id_L ∅ (∪))|done|by rewrite app_nil_r].
    + exists no_effect, (inl (rename_error bucket filename)).
      split; [|done]. intros w.
      unfold download_file. by rewrite G, F, apply_no_effect.
Qed.

Lemma silent_for_each {X} (body : X → M unit) keys :
  (∀ key, silent (body key)) → silent (for_each keys body).
Proof.
  intros Hb. induction keys as [|k keys IH].
  - exists no_effect, (inr tt). split; [apply acts_ret|done].
  - destruct (Hb k) as (E1 & [e|[]] & H1 & Hp1).
    + exists E1, (inl e). split; [|done]. by apply acts_bind_raise.
    + destruct IH as (E2 & r & H2 & Hp2).
      exists (effect_app E1 E2), r. split.
      * by apply acts_bind_ok with (a := tt).
      * simpl. by rewrite Hp1, Hp2.
Qed.

Lemma silent_download_body bucket target key :
  silent (download_body bucket target key).
Proof.
  unfold download_body.
  destruct (extract_imagename key imagename_pattern) as [e|name] eqn:He.
  - exists no_effect, (inl e). split; [|done].
    apply acts_bind_raise, acts_lift.
  - destruct (acts_download_file bucket key
                (os_path.join (os_path.join target name)
                              (os_path.basename key)))
      as (E & r & H & Hp).
    exists (effect_app no_effect
              (effect_app (mkEffect (os_path.ancestors
                                       (os_path.join target name)) [] [])
                          E)), r.
    split; [|simpl; by rewrite Hp].
    eapply acts_bind_ok; [apply acts_lift|].
    eapply acts_bind_ok; [apply acts_makedirs|]. done.
Qed.

Lemma silent_download bucket product target :
  silent (download bucket product target).
Proof.
  unfold download. destruct (objects_filter bucket product) eqn:Hl.
  - eexists no_effect, _. split; [|done]. intros w. unfold raise.
    by rewrite apply_no_effect.
  - apply silent_for_each. intros key. apply silent_download_body.
Qed.

Lemma silent_again c w : silent c → c (c w).1 = c w.
Proof.
  intros (E & r & H & Hp). rewrite !H. simpl. f_equal.
  destruct (apply_effect_again E w) as [Hd Hf].
  apply world_eq; [done|done|]. simpl. by rewrite Hp, !app_nil_r.
Qed.

Lemma silent_stdout c w : silent c → stdout (c w).1 = stdout w.
Proof.
  intros (E & r & H & Hp). rewrite H. simpl. by rewrite Hp, app_nil_r.
Qed.

(** * More on [download] *)

(** X6: running [download] again on the world it left changes nothing and ends
    the same way: directories that exist are accepted and files are
    written over with the same bytes. *)
Theorem download_again bucket product target w :
  download bucket product target (download bucket product target w).1
  = download bucket product target w.
Proof. apply silent_again, silent_download. Qed.

(** A base name does not start with a slash. *)
Lemma basename_head p : Str.startswith (os_path.basename p) "/" = false.
Proof.
  unfold os_path.basename. induction p as [|x p IH]; [done|].
  simpl Str.rfind. pose proof (rfind_ge "/" p) as Hge.
  destruct (Str.rfind "/" p =? -1) eqn:E.
  - apply Z.eqb_eq in E. destruct (Ascii.eqb x "/") eqn:Ex.
    + change (Z.to_nat (0 + 1)) with 1%nat. simpl.
      by apply rfind_none_head.
    + change (Z.to_nat (-1 + 1)) with 0%nat. simpl. by rewrite Ex.
  - apply Z.eqb_neq in E.
    replace (Z.to_nat (Str.rfind "/" p + 1 + 1))
      with (S (Z.to_nat (Str.rfind "/" p + 1))) by lia.
    done.
Qed.

Lemma join_under a b :
  Str.startswith b "/" = false → Str.startswith (os_path.join a b) a = true.
Proof.
  intros Hb. unfold os_path.join. rewrite Hb.
  destruct (_ || _); apply startswith_app.
Qed.

Lemma startswith_trans a b c :
  Str.startswith b a = true → Str.startswith c b = true →
  Str.startswith c a = true.
Proof.
  intros [t ->]%startswith_inv [u ->]%startswith_inv.
  rewrite app_assoc_str. apply startswith_app.
Qed.

Lemma imagename_head path m :
  extract_imagename path imagename_pattern = inr m →
  Str.startswith m "/" = false.
Proof.
  intros He. destruct (extract_imagename_name _ _ He) as [Hm _].
  by destruct Hm as (? & ? & ? & ? & ? & ? & ? & -> & _).
Qed.

Lemma destination_under target key path :
  destination target key = Some path →
  Str.startswith path target = true.
Proof.
  unfold destination, local_path.
  destruct (extract_imagename key imagename_pattern) as [e|name] eqn:He;
    [done|].
  intros [= <-].
  apply startswith_trans with (b := os_path.join target name).
  - apply join_under. by apply imagename_head in He.
  - apply join_under, basename_head.
Qed.

Section frame.
Variables (bucket : Bucket) (target : string).

(** What one turn of the loop can do, however it ends. *)
Lemma download_body_cases key w :
  (∃ e, extract_imagename key imagename_pattern = inl e
        ∧ download_body bucket target key w = (w, inl e))
  ∨ (∃ name e, extract_imagename key imagename_pattern = inr name
        ∧ get_object bucket key = inl e
        ∧ download_body bucket target key w
          = (after_makedirs target name w, inl e))
  ∨ (∃ name body, extract_imagename key imagename_pattern = inr name
        ∧ get_object bucket key = inr body
        ∧ os_path.file_name (os_path.basename key) = false
        ∧ download_body bucket target key w
          = (after_makedirs target name w,
             inl (rename_error bucket (local_path target name key))))
  ∨ (∃ name body, extract_imagename key imagename_pattern = inr name
        ∧ get_object bucket key = inr body
        ∧ os_path.file_name (os_path.basename key) = true
        ∧ download_body bucket target key w
          = (after_download target name key body w, inr tt)).
Proof.
  destruct (extract_imagename key imagename_pattern) as [e|name] eqn:He.
  { left. exists e. split; [done|]. by apply download_body_no_name. }
  right. destruct (get_object bucket key) as [e|body] eqn:G.
  { left. exists name, e. repeat split; try done.
    by apply download_body_no_transfer. }
  right. destruct (os_path.file_name (os_path.basename key)) eqn:F.
  - right. exists name, body. repeat split; try done.
    by apply download_body_done.
  - left. exists name, body. repeat split; try done.
    by apply (download_body_no_file _ _ _ _ body).
Qed.

Lemma for_each_frame keys : ∀ w,
  dirs w ⊆ dirs (for_each keys (download_body bucket target) w).1
  ∧ ∀ path,
      files (for_each keys (download_body bucket target) w).1 !! path
      = files w !! path
      ∨ ∃ key body, key ∈ keys ∧ destination target key = Some path
          ∧ get_object bucket key = inr body
          ∧ files (for_each keys (download_body bucket target) w).1 !! path
            = Some body.
Proof.
  induction keys as [|k keys IH]; intros w.
  { split; [done|]. by left. }
  rewrite for_each_cons.
  destruct (download_body_cases k w)
    as [(e & He & ->)
       |[(name & e & He & Hg & ->)
        |[(name & b & He & Hg & Hn & ->)|(name & b & He & Hg & Hn & ->)]]].
  - split; [done|]. by left.
  - split; [simpl; apply union_subseteq_r|]. by left.
  - split; [simpl; apply union_subseteq_r|]. by left.
  - destruct (IH (after_download target name k b w)) as [Hd Hf].
    split.
    { etrans; [apply (after_download_dirs target name k b)|done]. }
    intros path. destruct (Hf path) as [E|(key & b' & Hin & ? & ? & ?)].
    + destruct (decide (path = local_path target name k)) as [->|Hne].
      * right. exists k, b. rewrite E. simpl. rewrite lookup_insert_eq.
        unfold destination. rewrite He. repeat split; try done.
        apply list_elem_of_here.
      * left. rewrite E. simpl. by rewrite lookup_insert_ne.
    + right. exists key, b'. repeat split; try done.
      by apply list_elem_of_further.
Qed.


End frame.

Lemma download_touches bucket product target w path :
  stdout (download bucket product target w).1 = stdout w
  ∧ dirs w ⊆ dirs (download bucket product target w).1
  ∧ (files (download bucket product target w).1 !! path = files w !! path
     ∨ Str.startswith path target = true
       ∧ ∃ key body,
           key ∈ objects_filter bucket product
           ∧ destination target key = Some path
           ∧ get_object bucket key = inr body
           ∧ files (download bucket product target w).1 !! path
             = Some body).
Proof.
  split; [apply silent_stdout, silent_download|].
  destruct (objects_filter bucket product) as [|k keys] eqn:Hl.
  { rewrite download_nothing by done. split; [done|]. by left. }
  rewrite download_listing by (by rewrite Hl).
  destruct (for_each_frame bucket target (objects_filter bucket product) w)
    as [Hd Hf].
  split; [done|].
  destruct (Hf path) as [E|(key & b & Hin & Hdest & Hg & Hfile)];
    [by left|].
  right. split; [by apply destination_under in Hdest|].
  exists key, b. by rewrite <- Hl.
Qed.

(** X7: [download] keeps what is there and writes only under [target]: it
    prints nothing, removes no directory, and a path whose content differs
    afterwards lies under [target] and holds the bytes fetched for a listed
    object that belongs there; this holds however [download] ends. *)
Theorem download_frame bucket product target w path :
  stdout (download bucket product target w).1 = stdout w
  ∧ dirs w ⊆ dirs (download bucket product target w).1
  ∧ (files (download bucket product target w).1 !! path = files w !! path
     ∨ Str.startswith path target = true
       ∧ ∃ key body,
           key ∈ objects_filter bucket product
           ∧ destination target key = Some path
           ∧ get_object bucket key = inr body
           ∧ files (download bucket product target w).1 !! path
             = Some body).
Proof. apply download_touches. Qed.


(** * More on the table *)

Lemma elem_of_first_appearance x names :
  x ∈ first_appearance names ↔ x ∈ names.
Proof.
  induction names as [|y names IH]; [done|]. simpl.
  rewrite !elem_of_cons, list_elem_of_In, filter_In, <- list_elem_of_In, IH.
  rewrite negb_true_iff, bool_decide_eq_false.
  split; [intros [->|[H _]]; [by left|by right]|].
  intros [->|H]; [by left|].
  destruct (decide (x = y)) as [->|Hne]; [by left|by right].
Qed.

Lemma field_is_Some col r : is_Some (field col r) ↔ col ∈ r.*1.
Proof.
  unfold field. induction r as [|[k v] r IH]; simpl.
  - split; [by intros [? ?]|by intros ?%elem_of_nil].
  - case_bool_decide as E; simpl in *.
    + subst. split; [intros _; apply list_elem_of_here|eauto].
    + rewrite IH. split; [apply list_elem_of_further|].
      intros [?|?]%elem_of_cons; [congruence|done].
Qed.

Lemma from_dict_columns recs col :
  col ∈ df_columns (from_dict recs)
  ↔ ∃ r, r ∈ recs ∧ is_Some (field col r).
Proof.
  unfold from_dict. simpl.
  rewrite elem_of_first_appearance, list_elem_of_In, in_concat. split.
  - intros (l & (r & <- & Hr)%in_map_iff & Hcol).
    exists r. split; [by apply list_elem_of_In|].
    by apply field_is_Some, list_elem_of_In.
  - intros (r & Hr & Hf). exists (map fst r). split.
    + apply in_map. by apply list_elem_of_In.
    + by apply list_elem_of_In, field_is_Some.
Qed.

Lemma from_dict_column col recs values :
  recs ≠ [] →
  Forall2 (λ r v, field col r = Some v) recs values →
  getitem (from_dict recs) col = inr (Some <$> values).
Proof.
  intros Hne H. unfold getitem. rewrite bool_decide_true.
  - f_equal. simpl. clear Hne.
    induction H as [|r p recs' paths' Hr Hrest IH]; [done|].
    simpl. by rewrite Hr, IH.
  - apply from_dict_columns. destruct H as [|r p ? ? Hr Hrest]; [done|].
    exists r. split; [apply list_elem_of_here|]. by rewrite Hr.
Qed.

(** X10: the table built from the records gives back their attributes: when
    there is a record and every record has the attribute, its column holds
    the values in the order of the records, none missing. *)
Theorem getitem_from_dict col recs values :
  recs ≠ [] →
  Forall2 (λ r v, field col r = Some v) recs values →
  getitem (from_dict recs) col = inr (Some <$> values).
Proof. apply from_dict_column. Qed.

Lemma getitem_from_dict_witness :
  getitem sample_table "S3Path" = inr (Some <$> sample_paths).
Proof.
  apply (getitem_from_dict "S3Path"
           ((λ p, [("Name", "product"); ("S3Path", p)]) <$> sample_paths)).
  - discriminate.
  - repeat constructor.
Defined.

(** * More on [download_copernicus_images] *)

(** X11: a table without an [S3Path] column, such as the one built from an
    answer with no record or with records that lack the attribute, makes
    the batch raise KeyError before anything is printed or downloaded. *)
Theorem download_copernicus_images_no_column s3 start_row target w :
  (∀ df, "S3Path" ∉ df_columns df →
     download_copernicus_images s3 df start_row target w
     = (w, inl (KeyError "S3Path"))) ∧
  (∀ recs, Forall (λ r, field "S3Path" r = None) recs →
     download_copernicus_images s3 (from_dict recs) start_row target w
     = (w, inl (KeyError "S3Path"))).
Proof.
  assert (∀ df, "S3Path" ∉ df_columns df →
            download_copernicus_images s3 df start_row target w
            = (w, inl (KeyError "S3Path"))) as H.
  { intros df Hno. unfold download_copernicus_images, bind, lift, getitem.
    by rewrite bool_decide_false. }
  split; [done|]. intros recs Hall. apply H.
  rewrite from_dict_columns. intros (r & Hin & Hs).
  rewrite Forall_forall in Hall. rewrite (Hall r Hin) in Hs.
  by destruct Hs.
Qed.

Lemma download_copernicus_images_no_column_witness :
  download_copernicus_images sample_s3 (from_dict []) 0 "out" empty_world
  = (empty_world, inl (KeyError "S3Path"))
  ∧ download_copernicus_images sample_s3
      (from_dict [[("Name", "product")]]) 0 "out" empty_world
    = (empty_world, inl (KeyError "S3Path")).
Proof.
  split.
  - apply (proj2 (download_copernicus_images_no_column
                    sample_s3 0 "out" empty_world) []).
    constructor.
  - apply (proj2 (download_copernicus_images_no_column
                    sample_s3 0 "out" empty_world)
             [[("Name", "product")]]).
    repeat constructor.
Defined.

Lemma row_body_missing s3 target idx w :
  row_body s3 target (idx, None) w = (w, inl no_startswith).
Proof. reflexivity. Qed.

(** X12: a row whose cell is missing is not skipped: the AttributeError of
    [remove_prefix] is raised outside the handler, so the batch ends there;
    the rows before it have been processed, the rows after it are not. *)
Theorem download_copernicus_images_missing_cell
    s3 df start_row target cells before idx after w :
  getitem df "S3Path" = inr cells →
  enumerate (slice_from cells start_row) start_row
  = (with_cell <$> before) ++ (idx, None) :: after →
  download_copernicus_images s3 df start_row target w
  = (foldl (row_step s3 target) w before, inl no_startswith).
Proof.
  intros Hcol Hrows. unfold download_copernicus_images, bind, lift.
  rewrite Hcol, Hrows, for_each_app, for_each_rows, for_each_cons.
  by rewrite row_body_missing.
Qed.

Lemma download_copernicus_images_missing_cell_witness :
  download_copernicus_images sample_s3
    (from_dict [[("S3Path", "/eodata/" +:+ product_b)]; [("Name", "x")];
                [("S3Path", "/eodata/" +:+ product_c)]])
    0 "out" empty_world
  = (row_step sample_s3 "out" empty_world (0, "/eodata/" +:+ product_b),
     inl no_startswith).
Proof.
  apply (download_copernicus_images_missing_cell
           sample_s3 _ 0 "out"
           [Some ("/eodata/" +:+ product_b); None;
            Some ("/eodata/" +:+ product_c)]
           [(0, "/eodata/" +:+ product_b)] 1
           [(2, Some ("/eodata/" +:+ product_c))]).
  - vm_compute. reflexivity.
  - reflexivity.
Defined.

(** X13: a start row at or past the end of the table: nothing is printed or
    downloaded and the batch ends normally. *)
Theorem download_copernicus_images_past_end
    s3 df start_row target cells w :
  getitem df "S3Path" = inr cells →
  Z.of_nat (length cells) ≤ start_row →
  download_copernicus_images s3 df start_row target w = (w, inr tt).
Proof.
  intros Hcol Hs. unfold download_copernicus_images, bind, lift.
  rewrite Hcol. unfold slice_from.
  destruct (start_row <? 0) eqn:E; [apply Z.ltb_lt in E; lia|].
  by rewrite drop_ge by lia.
Qed.

Lemma download_copernicus_images_past_end_witness :
  download_copernicus_images sample_s3 sample_table 3 "out" empty_world
  = (empty_world, inr tt).
Proof.
  apply (download_copernicus_images_past_end
           sample_s3 sample_table 3 "out" (Some <$> sample_paths)).
  - apply sample_column.
  - vm_compute. discriminate.
Defined.

Lemma enumerate_shift {A} (l : list A) : ∀ a d,
  enumerate l (a + d) = (λ r, (r.1 + d, r.2)) <$> enumerate l a.
Proof.
  induction l as [|x l IH]; intros a d; [done|].
  simpl. f_equal. rewrite <- IH. f_equal. lia.
Qed.

(** X14: a negative start row counts from the end of the table, as a slice
    does: the rows processed are those from position
    [max 0 (len + start_row)] on, and each is reported under its position
    plus the difference between [start_row] and that first position (its
    position minus the length, when [start_row] is within the table). *)
Theorem download_copernicus_images_from_the_end
    s3 df start_row target paths w :
  start_row < 0 →
  getitem df "S3Path" = inr (Some <$> paths) →
  download_copernicus_images s3 df start_row target w
  = (foldl (row_step s3 target) w
       (reindexed
          (start_row - Z.max 0 (Z.of_nat (length paths) + start_row))
        <$> rows_by_position paths
              (Z.max 0 (Z.of_nat (length paths) + start_row))),
     inr tt).
Proof.
  intros Hs Hcol. rewrite (download_copernicus_images_run _ _ _ _ _ _ Hcol).
  do 2 f_equal.
  rewrite rows_by_position_enumerate by lia.
  set (k := Z.max 0 (Z.of_nat (length paths) + start_row)).
  replace start_row with (k + (start_row - k)) at 2 by lia.
  rewrite enumerate_shift. unfold slice_from at 1.
  destruct (start_row <? 0) eqn:E; [|apply Z.ltb_ge in E; lia].
  unfold slice_from.
  destruct (k <? 0) eqn:E'; [apply Z.ltb_lt in E'; lia|]. done.
Qed.

Lemma download_copernicus_images_from_the_end_witness :
  download_copernicus_images sample_s3 sample_table (-1) "out" empty_world
  = (foldl (row_step sample_s3 "out") empty_world
           [(-1, "/eodata/" +:+ product_c)], inr tt).
Proof.
  rewrite (download_copernicus_images_from_the_end
             sample_s3 sample_table (-1) "out" sample_paths empty_world);
    [reflexivity | lia | apply sample_column].
Defined.

(** * The batch and the disk *)

Lemma extends_refl bucket target listed w :
  extends bucket target listed w w.
Proof. split; [done|]. split; [by left|done]. Qed.

Lemma extends_trans bucket target listed w1 w2 w3 :
  extends bucket target listed w1 w2 → extends bucket target listed w2 w3 →
  extends bucket target listed w1 w3.
Proof.
  intros (Hd1 & Hf1 & Hs1) (Hd2 & Hf2 & Hs2).
  split; [by etrans|]. split; [|by etrans].
  intros path. destruct (Hf2 path) as [E|?]; [|by right].
  rewrite E. apply Hf1.
Qed.

Lemma extends_mono bucket target (listed listed' : string → Prop) w w1 :
  (∀ key, listed key → listed' key) →
  extends bucket target listed w w1 → extends bucket target listed' w w1.
Proof.
  intros Hsub (Hd & Hf & Hs). split; [done|]. split; [|done].
  intros path. destruct (Hf path) as [E|(key & b & Hk & Hrest)]; [by left|].
  right. exists key, b. split; [by apply Hsub|done].
Qed.

Lemma extends_printed bucket target listed line w :
  extends bucket target listed w (printed line w).
Proof.
  split; [done|]. split; [by left|]. by apply prefix_app_r.
Qed.

Lemma extends_download bucket product target w :
  extends bucket target (λ key, key ∈ objects_filter bucket product)
          w (download bucket product target w).1.
Proof.
  split; [|split].
  - by destruct (download_touches bucket product target w "") as (_ & ? & _).
  - intros path.
    destruct (download_touches bucket product target w path)
      as (_ & _ & [E|(_ & key & b & Hrest)]); [by left|].
    right. by exists key, b.
  - by destruct (download_touches bucket product target w "") as (-> & _).
Qed.

Lemma extends_row_step s3 target w row :
  extends (s3 "eodata") target
          (λ key, key ∈ objects_filter (s3 "eodata")
                          (remove_prefix row.2 "/eodata/"))
          w (row_step s3 target w row).
Proof.
  unfold row_step.
  pose proof (extends_download (s3 "eodata")
                (remove_prefix row.2 "/eodata/") target
                (printed (progress_line (remove_prefix row.2 "/eodata/")
                            row.1) w)) as H.
  destruct (download _ _ _ _) as [w' [e|[]]]; simpl in H.
  - eapply extends_trans; [apply extends_printed|].
    eapply extends_trans; [apply H|apply extends_printed].
  - eapply extends_trans; [apply extends_printed|apply H].
Qed.

Lemma extends_rows s3 target rows : ∀ w,
  extends (s3 "eodata") target (listed_for s3 rows.*2)
          w (for_each rows (row_body s3 target) w).1.
Proof.
  induction rows as [|[idx [p|]] rows IH]; intros w.
  - apply extends_refl.
  - rewrite for_each_cons.
    change (idx, Some p) with (with_cell (idx, p)).
    rewrite row_body_run.
    apply extends_trans with (w2 := row_step s3 target w (idx, p)).
    + eapply extends_mono;
        [|apply (extends_row_step s3 target w (idx, p))].
      intros key Hk. exists p. rewrite fmap_cons.
      split; [apply list_elem_of_here|done].
    + eapply extends_mono; [|apply IH].
      intros key (q & Hq & Hk). exists q. rewrite fmap_cons.
      split; [by apply list_elem_of_further|done].
  - apply extends_refl.
Qed.

Lemma enumerate_cells_snd {A} (l : list A) : ∀ start,
  (enumerate l start).*2 = l.
Proof.
  induction l as [|x l IH]; intros start; [done|].
  simpl. by rewrite IH.
Qed.

(** X15: the batch keeps what is there, however it ends and whatever the
    table: no directory is removed, the output only grows, and a file
    whose content differs afterwards is at the local path of an object
    listed for a row of the slice [[start_row:]] and holds the bytes
    fetched for such an object. *)
Theorem download_copernicus_images_keeps s3 df start_row target w :
  extends (s3 "eodata") target (batch_objects s3 df start_row)
          w (download_copernicus_images s3 df start_row target w).1.
Proof.
  unfold download_copernicus_images, bind, lift, batch_objects.
  destruct (getitem df "S3Path") as [e|cells]; [apply extends_refl|].
  eapply extends_mono; [|apply extends_rows].
  intros key Hk. exists cells. split; [done|].
  by rewrite enumerate_cells_snd in Hk.
Qed.





(** * More on the query and the metadata *)

Lemma df_empty_from_dict recs :
  df_empty (from_dict recs) = true ↔ Forall (λ r, r = []) recs.
Proof.
  unfold df_empty, from_dict. simpl. rewrite orb_true_iff.
  rewrite !bool_decide_eq_true. split.
  - intros [->|H]; [constructor|].
    assert (concat (map (map fst) recs) = []) as Hc.
    { destruct (concat (map (map fst) recs)) as [|x l] eqn:E; [done|].
      assert (x ∈ first_appearance (x :: l)) as Hin
        by apply elem_of_first_appearance, list_elem_of_here.
      rewrite H in Hin. by apply elem_of_nil in Hin. }
    clear H. induction recs as [|r recs IH]; [constructor|].
    simpl in Hc. apply app_eq_nil in Hc as [Hr Hc].
    constructor; [by destruct r|by apply IH].
  - intros H. right.
    assert (concat (map (map fst) recs) = []) as ->; [|done].
    induction H as [|r recs -> _ IH]; [done|]. done.
Qed.

(** X17: [get_copernicus_image_metadata] touches no file or directory.  An
    exception of the request comes out as it is, an answer without
    [value] raises KeyError, both with nothing printed; otherwise the
    table of the records is returned, and the nothing-found line is printed
    exactly when no record has an attribute. *)
Theorem get_copernicus_image_metadata_cases
    requests_get_json start_date end_date polygon collection cloud_cover
    product_type srid w :
  match requests_get_json
          (query_url start_date end_date polygon collection cloud_cover
                     product_type srid) with
  | inl e =>
      get_copernicus_image_metadata requests_get_json start_date end_date
        polygon collection cloud_cover product_type srid w = (w, inl e)
  | inr json_response =>
      match json_response !! "value" with
      | None =>
          get_copernicus_image_metadata requests_get_json start_date
            end_date polygon collection cloud_cover product_type srid w
          = (w, inl (KeyError "value"))
      | Some recs =>
          (Forall (λ r, r = []) recs →
           get_copernicus_image_metadata requests_get_json start_date
             end_date polygon collection cloud_cover product_type srid w
           = (printed nothing_found w, inr (from_dict recs)))
          ∧ (¬ Forall (λ r, r = []) recs →
             get_copernicus_image_metadata requests_get_json start_date
               end_date polygon collection cloud_cover product_type srid w
             = (w, inr (from_dict recs)))
      end
  end.
Proof.
  unfold get_copernicus_image_metadata, bind, lift.
  destruct (requests_get_json _) as [e|json_response]; [done|].
  destruct (json_response !! "value") as [recs|]; [|done].
  pose proof (df_empty_from_dict recs) as He.
  destruct (df_empty (from_dict recs)).
  - split; [done|]. intros Hno. destruct Hno. by apply He.
  - split; [|done]. intros Hall. apply He in Hall. done.
Qed.

(** X18: the arguments go into the query as they are: a start date that
    carries [" and ContentDate/Start lt z"] gives the very query that has
    [z] as a further upper bound in front of the end date, and a collection
    name with a quote in it closes the literal and adds a condition. *)
Theorem query_url_verbatim start_date end_date polygon collection
    cloud_cover product_type srid z :
  query_url (start_date +:+ " and ContentDate/Start lt " +:+ z) end_date
            polygon collection cloud_cover product_type srid
  = query_url start_date (z +:+ " and ContentDate/Start lt " +:+ end_date)
              polygon collection cloud_cover product_type srid
  ∧ query_url start_date end_date polygon
              (collection +:+ "' or Collection/Name eq '" +:+ z)
              None None srid
    = query_url start_date end_date polygon collection None None srid
      +:+ " or " +:+ collection_clause z.
Proof.
  unfold query_url, collection_clause.
  split; [destruct cloud_cover, product_type|]; simpl;
    rewrite ?app_assoc_str; reflexivity.
Qed.

Lemma for_each_ok_app {X} (xs ys : list X) body w w2 :
  for_each (xs ++ ys) body w = (w2, inr tt) →
  ∃ w1, for_each xs body w = (w1, inr tt)
        ∧ for_each ys body w1 = (w2, inr tt).
Proof.
  rewrite for_each_app.
  destruct (for_each xs body w) as [w1 [e|[]]]; [done|]. eauto.
Qed.

(** X9: [download] flattens the folders of a product: the local path depends
    on the image name and the base name only, and where several listed
    objects share it the last one listed is the one left on disk. *)
Theorem download_last_listed_wins
    bucket product target earlier key later path body w :
  objects_filter bucket product = earlier ++ key :: later →
  (download bucket product target w).2 = inr tt →
  destination target key = Some path →
  get_object bucket key = inr body →
  (∀ k, k ∈ later → destination target k ≠ Some path) →
  files (download bucket product target w).1 !! path = Some body.
Proof.
  intros Hl Hok Hdest Hg Hlater.
  rewrite download_listing in * by (rewrite Hl; by destruct earlier).
  rewrite Hl in *.
  destruct (for_each (earlier ++ key :: later) _ w) as [w2 [e|[]]] eqn:Hrun;
    [done|].
  apply for_each_ok_app in Hrun as (w1 & _ & Hrun).
  rewrite for_each_cons in Hrun.
  unfold destination in Hdest.
  destruct (extract_imagename key imagename_pattern) as [e|name] eqn:He;
    [done|].
  injection Hdest as <-.
  assert (os_path.file_name (os_path.basename key) = true) as Hn.
  { destruct (os_path.file_name (os_path.basename key)) eqn:F; [done|].
    by rewrite (download_body_no_file _ _ _ _ _ w1 He Hg F) in Hrun. }
  rewrite (download_body_done _ _ _ _ _ w1 He Hg Hn) in Hrun.
  destruct (for_each_frame bucket target later
              (after_download target name key body w1)) as [_ Hf].
  rewrite Hrun in Hf. simpl in Hf |- *.
  destruct (Hf (local_path target name key))
    as [->|(k & b & Hin & Hd & _)].
  - apply lookup_insert_eq.
  - by destruct (Hlater k Hin).
Qed.

Lemma download_last_listed_wins_witness :
  files (download folders_bucket product_a "out" empty_world).1
    !! "out/S2A_MSIL1C_20240430T000000_N0500_R001_T16QCD/MTD.xml"
  = Some (String.list_byte_of_string (product_a +:+ "/MTD.xml")).
Proof.
  apply (download_last_listed_wins
           folders_bucket product_a "out"
           [product_a +:+ "/GRANULE/MTD.xml"] (product_a +:+ "/MTD.xml") []).
  - vm_compute. reflexivity.
  - vm_compute. reflexivity.
  - vm_compute. reflexivity.
  - reflexivity.
  - intros k Hk. by apply elem_of_nil in Hk.
Defined.


Lemma get_copernicus_image_metadata_cases_witness :
  get_copernicus_image_metadata (λ _, inr {["value" := sample_records]})
    fecha_inicial fecha_final poligono satelite None (Some producto) "4326"
    empty_world
  = (empty_world, inr (from_dict sample_records)).
Proof.
  pose proof (get_copernicus_image_metadata_cases
                (λ _, inr {["value" := sample_records]})
                fecha_inicial fecha_final poligono satelite None
                (Some producto) "4326" empty_world) as H.
  cbv beta in H.
  change (({["value" := sample_records]} : gmap string (list record))
            !! "value") with (Some sample_records) in H.
  apply (proj2 H). intros Hall. by inversion Hall.
Defined.

(** * The script *)

Lemma descargar_sentinel_2_run to_string requests_get_json s3 w df w1 :
  get_copernicus_image_metadata requests_get_json fecha_inicial
    fecha_final poligono satelite None (Some producto) "4326" w
  = (w1, inr df) →
  descargar_sentinel_2 to_string requests_get_json s3 w
  = download_copernicus_images s3 df 1 "imagenes_descargadas"
      (printed (to_string (df_head 5 df)) w1).
Proof.
  intros H. unfold descargar_sentinel_2, bind. by rewrite H.
Qed.

(** X19: when the catalogue finds nothing the script does not end quietly: the
    empty table has no [S3Path] column, so after the nothing-found line
    and the printed table the download raises KeyError; no file or
    directory is made. *)
Theorem descargar_sentinel_2_nothing_found
    to_string requests_get_json s3 json_response w :
  requests_get_json script_url = inr json_response →
  json_response !! "value" = Some [] →
  descargar_sentinel_2 to_string requests_get_json s3 w
  = (printed (to_string (mkDataFrame [] [])) (printed nothing_found w),
     inl (KeyError "S3Path")).
Proof.
  intros Hget Hvalue.
  rewrite (descargar_sentinel_2_run _ _ _ _ (mkDataFrame [] [])
             (printed nothing_found w)).
  - done.
  - unfold get_copernicus_image_metadata, bind, lift.
    fold script_url. by rewrite Hget, Hvalue.
Qed.

Lemma descargar_sentinel_2_nothing_found_witness :
  descargar_sentinel_2 (λ _, "Empty DataFrame")
    (λ _, inr {["value" := []]}) sample_s3 empty_world
  = (printed "Empty DataFrame" (printed nothing_found empty_world),
     inl (KeyError "S3Path")).
Proof.
  apply (descargar_sentinel_2_nothing_found
           (λ _, "Empty DataFrame") (λ _, inr {["value" := []]}) sample_s3
           {["value" := []]} empty_world).
  - reflexivity.
  - vm_compute. reflexivity.
Defined.

(** X20: the script starts at row 1: when every record of the answer has an
    [S3Path], the table is printed and the rows from the second one on are
    processed, each reported under its position; the first row of the
    answer is not processed. *)
Theorem descargar_sentinel_2_from_second_row
    to_string requests_get_json s3 json_response recs paths w :
  requests_get_json script_url = inr json_response →
  json_response !! "value" = Some recs →
  recs ≠ [] →
  Forall2 (λ r p, field "S3Path" r = Some p) recs paths →
  descargar_sentinel_2 to_string requests_get_json s3 w
  = (foldl (row_step s3 "imagenes_descargadas")
           (printed (to_string (df_head 5 (from_dict recs))) w)
           (rows_by_position paths 1),
     inr tt).
Proof.
  intros Hget Hvalue Hne Hall.
  rewrite (descargar_sentinel_2_run _ _ _ _ (from_dict recs) w).
  - rewrite rows_by_position_enumerate by lia.
    apply download_copernicus_images_run. by apply from_dict_column.
  - unfold get_copernicus_image_metadata, bind, lift.
    fold script_url. rewrite Hget, Hvalue.
    destruct (df_empty (from_dict recs)) eqn:He; [|done].
    apply df_empty_from_dict in He.
    destruct Hall as [|r p ? ? Hr _]; [done|].
    inversion He; subst. done.
Qed.

Lemma descargar_sentinel_2_from_second_row_witness :
  descargar_sentinel_2 (λ _, "table")
    (λ _, inr {["value" := sample_records]}) sample_s3 empty_world
  = (foldl (row_step sample_s3 "imagenes_descargadas")
           (printed "table" empty_world)
           [(1, "/eodata/" +:+ product_a); (2, "/eodata/" +:+ product_c)],
     inr tt).
Proof.
  rewrite (descargar_sentinel_2_from_second_row
             (λ _, "table") (λ _, inr {["value" := sample_records]})
             sample_s3 {["value" := sample_records]} sample_records
             sample_paths empty_world).
  - reflexivity.
  - reflexivity.
  - vm_compute. reflexivity.
  - discriminate.
  - repeat constructor.
Defined.
